(** * The falling-block engine of [tetris/game.js]

    A shallow embedding of the engine core (board, pieces, collision,
    rotation with kicks, locking, line clearing, scoring, hold) together
    with the properties its specification states about it.

    Conventions of the embedding:
    - the module-level [let] variables of the script ([grid], [score],
      [current], ...) are the fields of one record [State]; every
      function that touches them takes and returns a [State];
    - [Math.random] is an input: functions that draw a piece take the
      drawn tetromino kind as an argument;
    - a JavaScript exception ([TypeError] on reading a property of
      [undefined] or [null]) and the exhaustion of a loop bound are
      outcomes of their own, next to normal completion;
    - canvas drawing, the HUD and sound only read the state and are left
      out;
    - the script's numbers are doubles. The model holds whole numbers
      ([Z]) and computes with them exactly; that is what the doubles do
      as long as operands and results are whole numbers of magnitude at
      most 2^53, and what [Math.floor(d * 0.85)] does for the gravity
      periods of a session. A statement that gives the value of a
      counter or of the clock carries these bounds as hypotheses
      ([exactCounters], [exactSpeed], [exactClock]); fractional time
      stamps are outside the model. The one place where the script can
      produce [NaN] (the score table indexed out of range) is kept. *)

From Stdlib Require Import ZArith Lia.
From Stdlib Require Import PrimFloat.
From Stdlib Require Uint63.
From stdpp Require Import base tactics option list strings.

#[local] Open Scope Z_scope.

(** ** Outcomes of a call *)

Inductive outcome (A : Type) : Type :=
| Ok (a : A)
| TypeError
| OutOfFuel.

Arguments Ok {A} a.
Arguments TypeError {A}.
Arguments OutOfFuel {A}.

#[global] Instance outcome_ret : MRet outcome := @Ok.
#[global] Instance outcome_bind : MBind outcome :=
  fun A B (f : A -> outcome B) (m : outcome A) =>
    match m with
    | Ok a => f a
    | TypeError => TypeError
    | OutOfFuel => OutOfFuel
    end.

(** ** Constants and data *)

Definition COLS : Z := 10.
Definition ROWS : Z := 20.

(** The seven tetromino kinds, the keys of [SHAPES] and [COLORS]. They
    live in a module of their own: [O], [S] and [I] are taken. *)
Module Tetro.
Inductive t : Type := I | O | T | S | Z | J | L.
End Tetro.

#[global] Instance Tetro_eq_dec : EqDecision Tetro.t.
Proof. solve_decision. Defined.

Definition COLORS (t : Tetro.t) : string :=
  match t with
  | Tetro.I => "#00ffff" | Tetro.O => "#f1e05a" | Tetro.T => "#a970ff"
  | Tetro.S => "#00ff9c" | Tetro.Z => "#ff4d6d" | Tetro.J => "#4dabf7"
  | Tetro.L => "#ffb74d"
  end.

(** One occupied cell of a shape, as an offset from the piece's anchor. *)
Record Pt : Type := mkPt { cx : Z; cy : Z }.

#[global] Instance Pt_eq_dec : EqDecision Pt.
Proof. solve_decision. Defined.

Definition SHAPES (t : Tetro.t) : list Pt :=
  match t with
  | Tetro.I => [mkPt 0 1; mkPt 1 1; mkPt 2 1; mkPt 3 1]
  | Tetro.O => [mkPt 1 0; mkPt 2 0; mkPt 1 1; mkPt 2 1]
  | Tetro.T => [mkPt 1 0; mkPt 0 1; mkPt 1 1; mkPt 2 1]
  | Tetro.S => [mkPt 1 1; mkPt 2 1; mkPt 0 2; mkPt 1 2]
  | Tetro.Z => [mkPt 0 1; mkPt 1 1; mkPt 1 2; mkPt 2 2]
  | Tetro.J => [mkPt 0 0; mkPt 0 1; mkPt 1 1; mkPt 2 1]
  | Tetro.L => [mkPt 2 0; mkPt 0 1; mkPt 1 1; mkPt 2 1]
  end.

Definition TETROS : list Tetro.t :=
  [Tetro.I; Tetro.O; Tetro.T; Tetro.S; Tetro.Z; Tetro.J; Tetro.L].

Record Piece : Type := mkPiece {
  type : Tetro.t;
  shape : list Pt;
  x : Z;
  y : Z;
  rot : Z;
  color : string
}.

#[global] Instance Piece_eq_dec : EqDecision Piece.
Proof. solve_decision. Defined.

(** A slot of a row array: never assigned (a hole of a sparse array),
    [null], or a colour string. *)
Inductive Cell : Type := Hole | Null | Color (c : string).

#[global] Instance Cell_eq_dec : EqDecision Cell.
Proof. solve_decision. Defined.

Abbreviation Row := (list Cell).
Abbreviation Grid := (list (list Cell)).

(** A number as the script can hold it in [score]: a whole number or
    [NaN]. *)
Inductive jsnum : Type := Num (n : Z) | NaN.

(** [a + b]. The sum of two doubles that hold whole numbers is the
    exact sum when that sum is at most 2^53 in magnitude; beyond, the
    script's sum is rounded and this definition no longer gives it. *)
Definition jsadd (a b : jsnum) : jsnum :=
  match a, b with
  | Num m, Num n => Num (m + n)
  | _, _ => NaN
  end.

(** What a call evaluates to, where a claim speaks of it. *)
Inductive jsval : Type := Undefined | Number (n : Z).

Record State : Type := mkState {
  grid : Grid;
  score : jsnum;
  lines : Z;
  level : Z;
  current : option Piece;
  next : Piece;
  dropInterval : Z;
  lastTime : Z;
  dropAccum : Z;
  paused : bool;
  over : bool;
  holdType : option Tetro.t;
  holdUsed : bool
}.

Definition set_grid (g : Grid) (s : State) : State :=
  mkState g (score s) (lines s) (level s) (current s) (next s)
    (dropInterval s) (lastTime s) (dropAccum s) (paused s) (over s)
    (holdType s) (holdUsed s).
Definition set_score (v : jsnum) (s : State) : State :=
  mkState (grid s) v (lines s) (level s) (current s) (next s)
    (dropInterval s) (lastTime s) (dropAccum s) (paused s) (over s)
    (holdType s) (holdUsed s).
Definition set_lines (v : Z) (s : State) : State :=
  mkState (grid s) (score s) v (level s) (current s) (next s)
    (dropInterval s) (lastTime s) (dropAccum s) (paused s) (over s)
    (holdType s) (holdUsed s).
Definition set_level (v : Z) (s : State) : State :=
  mkState (grid s) (score s) (lines s) v (current s) (next s)
    (dropInterval s) (lastTime s) (dropAccum s) (paused s) (over s)
    (holdType s) (holdUsed s).
Definition set_current (v : option Piece) (s : State) : State :=
  mkState (grid s) (score s) (lines s) (level s) v (next s)
    (dropInterval s) (lastTime s) (dropAccum s) (paused s) (over s)
    (holdType s) (holdUsed s).
Definition set_next (v : Piece) (s : State) : State :=
  mkState (grid s) (score s) (lines s) (level s) (current s) v
    (dropInterval s) (lastTime s) (dropAccum s) (paused s) (over s)
    (holdType s) (holdUsed s).
Definition set_dropInterval (v : Z) (s : State) : State :=
  mkState (grid s) (score s) (lines s) (level s) (current s) (next s)
    v (lastTime s) (dropAccum s) (paused s) (over s)
    (holdType s) (holdUsed s).
Definition set_lastTime (v : Z) (s : State) : State :=
  mkState (grid s) (score s) (lines s) (level s) (current s) (next s)
    (dropInterval s) v (dropAccum s) (paused s) (over s)
    (holdType s) (holdUsed s).
Definition set_dropAccum (v : Z) (s : State) : State :=
  mkState (grid s) (score s) (lines s) (level s) (current s) (next s)
    (dropInterval s) (lastTime s) v (paused s) (over s)
    (holdType s) (holdUsed s).
Definition set_paused (v : bool) (s : State) : State :=
  mkState (grid s) (score s) (lines s) (level s) (current s) (next s)
    (dropInterval s) (lastTime s) (dropAccum s) v (over s)
    (holdType s) (holdUsed s).
Definition set_over (v : bool) (s : State) : State :=
  mkState (grid s) (score s) (lines s) (level s) (current s) (next s)
    (dropInterval s) (lastTime s) (dropAccum s) (paused s) v
    (holdType s) (holdUsed s).
Definition set_holdType (v : option Tetro.t) (s : State) : State :=
  mkState (grid s) (score s) (lines s) (level s) (current s) (next s)
    (dropInterval s) (lastTime s) (dropAccum s) (paused s) (over s)
    v (holdUsed s).
Definition set_holdUsed (v : bool) (s : State) : State :=
  mkState (grid s) (score s) (lines s) (level s) (current s) (next s)
    (dropInterval s) (lastTime s) (dropAccum s) (paused s) (over s)
    (holdType s) v.

(** ** Grid and pieces *)

(** [Array(w).fill(null)] *)
Definition emptyRow (w : Z) : Row := replicate (Z.to_nat w) Null.

(** [createGrid(w, h)] *)
Definition createGrid (w h : Z) : Grid := replicate (Z.to_nat h) (emptyRow w).

(** [pieceFromType(type)] *)
Definition pieceFromType (t : Tetro.t) : Piece :=
  mkPiece t (map (fun p => mkPt (cx p) (cy p)) (SHAPES t)) 3 (-2) 0 (COLORS t).

(** [clonePiece(p)] *)
Definition clonePiece (p : Piece) : Piece :=
  mkPiece (type p) (map (fun c => mkPt (cx c) (cy c)) (shape p))
    (x p) (y p) (rot p) (color p).

Definition set_x (v : Z) (p : Piece) : Piece :=
  mkPiece (type p) (shape p) v (y p) (rot p) (color p).
Definition set_y (v : Z) (p : Piece) : Piece :=
  mkPiece (type p) (shape p) (x p) v (rot p) (color p).
Definition set_rot (v : Z) (p : Piece) : Piece :=
  mkPiece (type p) (shape p) (x p) (y p) v (color p).
Definition set_shape (v : list Pt) (p : Piece) : Piece :=
  mkPiece (type p) v (x p) (y p) (rot p) (color p).

(** [rotate(p)]: a clone of [p], one quarter turn further. *)
Definition rotate (p : Piece) : Piece :=
  let c := clonePiece p in
  let c := set_rot (Z.rem (rot c + 1) 4) c in
  set_shape (map (fun q => mkPt (2 - cy q) (cx q)) (shape c)) c.

(** Truthiness of a slot's value: [undefined], [null] and the empty
    string are falsy. *)
Definition truthy (c : Cell) : bool :=
  match c with
  | Color s => negb (String.eqb s "")
  | Hole | Null => false
  end.

(** [grid[gy][gx]] read as a condition, for [0 <= gy] and [0 <= gx]:
    a missing row makes the second index throw, a missing column reads
    [undefined]. *)
Definition occupied (g : Grid) (gy gx : Z) : outcome bool :=
  match g !! Z.to_nat gy with
  | None => TypeError
  | Some row =>
      Ok (match row !! Z.to_nat gx with
          | Some c => truthy c
          | None => false
          end)
  end.

(** The [for ... of p.shape] loop of [collides]. *)
Fixpoint collidesCells (g : Grid) (px py : Z) (cells : list Pt) : outcome bool :=
  match cells with
  | [] => Ok false
  | c :: rest =>
      let gx := px + cx c in
      let gy := py + cy c in
      if gy <? 0 then collidesCells g px py rest
      else if (gx <? 0) || (gx >=? COLS) || (gy >=? ROWS) then Ok true
      else b ← occupied g gy gx;
           if (b : bool) then Ok true else collidesCells g px py rest
  end.

(** [collides(p)] against the grid [g]. *)
Definition collides (g : Grid) (p : Piece) : outcome bool :=
  collidesCells g (x p) (y p) (shape p).

(** [row[gx] = v] on a row array: a negative index sets a property that
    is no element, an index past the end grows the array with holes. *)
Definition rowSet (row : Row) (gx : Z) (v : Cell) : Row :=
  if gx <? 0 then row
  else if (Z.to_nat gx <? length row)%nat then <[Z.to_nat gx := v]> row
  else row ++ replicate (Z.to_nat gx - length row)%nat Hole ++ [v].

(** [grid[gy][gx] = v], for [0 <= gy]. *)
Definition setCell (g : Grid) (gy gx : Z) (v : Cell) : outcome Grid :=
  match g !! Z.to_nat gy with
  | None => TypeError
  | Some row => Ok (<[Z.to_nat gy := rowSet row gx v]> g)
  end.

(** The loop of [merge]. *)
Fixpoint mergeCells (g : Grid) (px py : Z) (col : string) (cells : list Pt)
  : outcome Grid :=
  match cells with
  | [] => Ok g
  | c :: rest =>
      let gx := px + cx c in
      let gy := py + cy c in
      if gy >=? 0 then
        g' ← setCell g gy gx (Color col);
        mergeCells g' px py col rest
      else mergeCells g px py col rest
  end.

(** [merge(p)] *)
Definition merge (g : Grid) (p : Piece) : outcome Grid :=
  mergeCells g (x p) (y p) (color p) (shape p).

(** [row.every(v => v)]: the callback is not called on holes. *)
Definition fullRow (row : Row) : bool :=
  forallb (fun c => match c with Hole => true | _ => truthy c end) row.

(** ** Line clearing and scoring *)

(** The scan of [clearLines]: [for (let y = ROWS - 1; y >= 0; y--)],
    where a cleared row is spliced out, an empty row is put on top and
    [y++] makes the next round look at the same index again. Every round
    takes one unit of [fuel]. *)
Fixpoint clearLoop (fuel : nat) (g : Grid) (yy : Z) (cleared : Z)
  : outcome (Grid * Z) :=
  match fuel with
  | O => OutOfFuel
  | S fuel' =>
      if yy >=? 0 then
        match g !! Z.to_nat yy with
        | None => TypeError
        | Some row =>
            if fullRow row then
              let g1 := delete (Z.to_nat yy) g in
              let g2 := emptyRow COLS :: g1 in
              clearLoop fuel' g2 (yy + 1 - 1) (cleared + 1)
            else clearLoop fuel' g (yy - 1) cleared
        end
      else Ok (g, cleared)
  end.

Definition scoreTable : list Z := [0; 40; 100; 300; 1200].

(** [[0, 40, 100, 300, 1200][cleared] * level]: an index past the table
    reads [undefined], and the product is [NaN]. The product of the
    doubles is the exact product while it is at most 2^53 in
    magnitude. *)
Definition points (cleared lvl : Z) : jsnum :=
  match scoreTable !! Z.to_nat cleared with
  | Some v => Num (v * lvl)
  | None => NaN
  end.

(** [Math.max(80, Math.floor(dropInterval * 0.85))]. For a whole [d]
    from 0 to 800, which covers the gravity periods of a session, the
    floor of the double product is the exact [d * 85 / 100]
    ([speedUp_double] below computes the doubles); for large [d] the
    rounding of the product shows and this definition no longer gives
    the script's value. *)
Definition speedUp (d : Z) : Z := Z.max 80 (d * 85 / 100).

(** The double that holds the whole number [n], for [n] from 0 to
    2^53. *)
Definition toDouble (n : Z) : float := PrimFloat.of_uint63 (Uint63.of_Z n).

(** The double that the literal [0.85] of the script denotes. *)
Definition d085 : float := 0x1.b333333333333p-1%float.

(** [Math.floor(f)] is [k]: [k <= f < k + 1]. *)
Definition floorIs (f : float) (k : Z) : bool :=
  PrimFloat.leb (toDouble k) f && PrimFloat.ltb f (toDouble (k + 1)).

(** [Math.max(80, Math.floor(d * 0.85))], computed on doubles, is
    [speedUp d]. *)
Definition speedUpAgrees (d : Z) : bool :=
  floorIs (PrimFloat.mul (toDouble d) d085) (d * 85 / 100)
  && PrimFloat.eqb
       (if PrimFloat.ltb (toDouble (d * 85 / 100)) (toDouble 80)
        then toDouble 80 else toDouble (d * 85 / 100))
       (toDouble (speedUp d)).

(** [clearLines()]. The body ends without a [return]: the call evaluates
    to [undefined]. *)
Definition clearLines (fuel : nat) (s : State) : outcome (jsval * State) :=
  '(g, cleared) ← clearLoop fuel (grid s) (ROWS - 1) 0;
  let s := set_grid g s in
  if cleared =? 0 then Ok (Undefined, s)
  else
    let s := set_score (jsadd (score s) (points cleared (level s))) s in
    let s := set_lines (lines s + cleared) s in
    let s :=
      if lines s >=? level s * 10 then
        set_dropInterval (speedUp (dropInterval s)) (set_level (level s + 1) s)
      else s in
    Ok (Undefined, s).

(** ** Piece life cycle *)

(** [randomPiece()], with the kind that
    [TETROS[Math.floor(Math.random() * TETROS.length)]] picked. *)
Definition randomPiece (r : Tetro.t) : Piece := pieceFromType r.

(** [spawn()] *)
Definition spawn (r : Tetro.t) (s : State) : outcome State :=
  let cur := next s in
  let s := set_next (randomPiece r) (set_current (Some cur) s) in
  let cur := set_rot 0 (set_y (-2) (set_x 3 cur)) in
  let s := set_current (Some cur) s in
  let s := set_holdUsed false s in
  b ← collides (grid s) cur;
  Ok (if (b : bool) then set_over true s else s).

(** [tickLock()] *)
Definition tickLock (fuel : nat) (r : Tetro.t) (s : State) : outcome State :=
  match current s with
  | None => TypeError
  | Some cur =>
      g ← merge (grid s) cur;
      '(_, s) ← clearLines fuel (set_grid g s);
      spawn r s
  end.

(** The [while (true)] loop of [hardDrop]: the piece reached and whether
    it moved at all. *)
Fixpoint dropLoop (fuel : nat) (g : Grid) (cur : Piece) (moved : bool)
  : outcome (Piece * bool) :=
  match fuel with
  | O => OutOfFuel
  | S fuel' =>
      let p := clonePiece cur in
      let p := set_y (y p + 1) p in
      b ← collides g p;
      if (b : bool) then Ok (cur, moved) else dropLoop fuel' g p true
  end.

(** [hardDrop()] *)
Definition hardDrop (fuel : nat) (r : Tetro.t) (s : State) : outcome State :=
  match current s with
  | None => Ok s
  | Some cur =>
      '(cur', moved) ← dropLoop fuel (grid s) cur false;
      let s := set_current (Some cur') s in
      if (moved : bool) then tickLock fuel r s else Ok s
  end.

(** [move(dx, dy)] *)
Definition move (dx dy : Z) (s : State) : outcome State :=
  match current s with
  | None => TypeError
  | Some cur =>
      let p := clonePiece cur in
      let p := set_y (y p + dy) (set_x (x p + dx) p) in
      b ← collides (grid s) p;
      Ok (if (b : bool) then s else set_current (Some p) s)
  end.

Definition kicks : list Z := [-1; 1; -2; 2].

(** The [for (const k of [-1, 1, -2, 2])] loop of [rotateCurrent]: the
    first kicked placement that does not collide, if there is one. *)
Fixpoint kickLoop (g : Grid) (p : Piece) (ks : list Z) : outcome (option Piece) :=
  match ks with
  | [] => Ok None
  | k :: rest =>
      let w := clonePiece p in
      let w := set_x (x w + k) w in
      b ← collides g w;
      if (b : bool) then kickLoop g p rest else Ok (Some w)
  end.

(** [rotateCurrent()] *)
Definition rotateCurrent (s : State) : outcome State :=
  match current s with
  | None => TypeError
  | Some cur =>
      let p := rotate cur in
      b ← collides (grid s) p;
      if negb b then Ok (set_current (Some p) s)
      else
        w ← kickLoop (grid s) p kicks;
        Ok (match w with
            | Some w => set_current (Some w) s
            | None => s
            end)
  end.

(** [update(time)], one animation frame. The time stamps are whole
    numbers here; the differences and sums of the doubles are the exact
    ones for whole time stamps up to 2^53. *)
Definition update (fuel : nat) (r : Tetro.t) (time : Z) (s : State)
  : outcome State :=
  if paused s || over s then Ok s
  else
    let delta := time - lastTime s in
    let s := set_lastTime time s in
    let s := set_dropAccum (dropAccum s + delta) s in
    if dropAccum s >? dropInterval s then
      let s := set_dropAccum 0 s in
      match current s with
      | None => TypeError
      | Some cur =>
          let p := clonePiece cur in
          let p := set_y (y p + 1) p in
          b ← collides (grid s) p;
          if (b : bool) then tickLock fuel r s else Ok (set_current (Some p) s)
      end
    else Ok s.

(** [reset()]: [r1] is the draw for [next], [r2] the draw of the spawn,
    [now] is [performance.now()]. *)
Definition reset (r1 r2 : Tetro.t) (now : Z) (s : State) : outcome State :=
  let s := set_grid (createGrid COLS ROWS) s in
  let s := set_score (Num 0) s in
  let s := set_lines 0 s in
  let s := set_level 1 s in
  let s := set_dropInterval 800 s in
  let s := set_over false s in
  let s := set_paused false s in
  let s := set_holdType None s in
  let s := set_holdUsed false s in
  let s := set_current None s in
  let s := set_next (randomPiece r1) s in
  s ← spawn r2 s;
  Ok (set_dropAccum 0 (set_lastTime now s)).

(** [togglePause()] *)
Definition togglePause (now : Z) (s : State) : State :=
  if over s then s
  else
    let s := set_paused (negb (paused s)) s in
    if negb (paused s) then set_lastTime now s else s.

(** [!v] for a variable that holds [null] or an object. *)
Definition isNull {A : Type} (v : option A) : bool :=
  match v with
  | None => true
  | Some _ => false
  end.

(** [doHold()] *)
Definition doHold (r : Tetro.t) (s : State) : outcome State :=
  if paused s || over s || holdUsed s || isNull (current s)
  then Ok s
  else
    match current s with
    | None => TypeError
    | Some cur =>
        let curType := type cur in
        s ←
          match holdType s with
          | None =>
              let s := set_holdType (Some curType) s in
              spawn r s
          | Some swapType =>
              let s := set_holdType (Some curType) s in
              let cur := pieceFromType swapType in
              let s := set_current (Some cur) s in
              b ← collides (grid s) cur;
              Ok (if (b : bool) then set_over true s else s)
          end;
        Ok (set_holdUsed true s)
    end.

(** ** The ghost piece *)

(** The [while (true)] loop of [drawGhostPiece]: the clone [g] of the
    active piece is moved down as long as a copy one row further down
    does not collide. *)
Fixpoint ghostLoop (fuel : nat) (g : Grid) (gh : Piece) : outcome Piece :=
  match fuel with
  | O => OutOfFuel
  | S fuel' =>
      let t := clonePiece gh in
      let t := set_y (y t + 1) t in
      b ← collides g t;
      if (b : bool) then Ok gh else ghostLoop fuel' g (set_y (y gh + 1) gh)
  end.

(** The [for ... of g.shape] loop that paints a piece: the arguments
    [(gx, gy, color)] of its [drawCell] calls, in order. Cells above the
    top row are not painted. *)
Definition paintCells (p : Piece) (col : string) : list (Z * Z * string) :=
  flat_map (fun c =>
              let gx := x p + cx c in
              let gy := y p + cy c in
              if gy >=? 0 then [(gx, gy, col)] else [])
           (shape p).

(** [drawGhostPiece()]: the [drawCell] calls it makes (all of them with
    [globalAlpha = 0.25]). *)
Definition drawGhostPiece (fuel : nat) (s : State)
  : outcome (list (Z * Z * string)) :=
  match current s with
  | None => Ok []
  | Some cur =>
      gh ← ghostLoop fuel (grid s) (clonePiece cur);
      Ok (paintCells gh (color cur))
  end.

(** ** Drawing the board *)

(** The inner loop of the board scan of [draw] on the row [grid[y]]:
    the [drawCell(x, y, c)] calls for the slots that hold a truthy
    value. *)
Definition paintRow (row : Row) (yy : Z) : list (Z * Z * string) :=
  flat_map (fun xx =>
              match row !! xx with
              | Some (Color c) =>
                  if truthy (Color c) then [(Z.of_nat xx, yy, c)] else []
              | _ => []
              end)
           (seq 0 (Z.to_nat COLS)).

(** The outer loop, [for (let y = 0; y < ROWS; y++)]: reading a slot
    of a missing row throws. *)
Fixpoint paintRows (g : Grid) (ys : list nat) : outcome (list (Z * Z * string)) :=
  match ys with
  | [] => Ok []
  | yy :: rest =>
      match g !! yy with
      | None => TypeError
      | Some row =>
          ps ← paintRows g rest;
          Ok (paintRow row (Z.of_nat yy) ++ ps)
      end
  end.

(** [draw()]: the [drawCell] calls for the settled cells, for the ghost
    and for the active piece. The canvas itself is not modelled. *)
Definition draw (fuel : nat) (s : State)
  : outcome (list (Z * Z * string) * list (Z * Z * string) * list (Z * Z * string)) :=
  placed ← paintRows (grid s) (seq 0 (Z.to_nat ROWS));
  ghost ← (if isNull (current s) then Ok [] else drawGhostPiece fuel s);
  Ok (placed, ghost,
      match current s with
      | Some cur => paintCells cur (color cur)
      | None => []
      end).

(** ** Input *)

(** The [e.code] values the key handler tells apart. *)
Inductive Key : Type :=
| ArrowLeft | ArrowRight | ArrowDown | ArrowUp | Space
| ShiftLeft | ShiftRight | KeyC | KeyP | OtherKey.

(** The touch buttons bound with [bindBtn]. *)
Inductive Button : Type :=
| BtnLeft | BtnRight | BtnDown | BtnRotate | BtnDrop | BtnHold | BtnPause.

(** What the page can deliver to the script: a key press, a touch
    button, an animation frame with its time stamp, a click on restart. *)
Inductive Event : Type :=
| KeyDown (k : Key)
| Press (b : Button)
| Frame (time : Z)
| Restart.

(** What an event handler can ask of its environment: the clock and two
    random draws. *)
Record Env : Type := mkEnv { now : Z; draw1 : Tetro.t; draw2 : Tetro.t }.

(** The [keydown] listener. *)
Definition onKeyDown (fuel : nat) (e : Env) (k : Key) (s : State)
  : outcome State :=
  if over s then Ok s
  else
    match k with
    | KeyP => Ok (togglePause (now e) s)
    | _ =>
        if paused s then Ok s
        else
          match k with
          | ArrowLeft => move (-1) 0 s
          | ArrowRight => move 1 0 s
          | ArrowDown => move 0 1 s
          | ArrowUp => rotateCurrent s
          | Space => hardDrop fuel (draw1 e) s
          | ShiftLeft | ShiftRight | KeyC => doHold (draw1 e) s
          | KeyP | OtherKey => Ok s
          end
    end.

(** The handlers passed to [bindBtn]. *)
Definition onPress (fuel : nat) (e : Env) (b : Button) (s : State)
  : outcome State :=
  match b with
  | BtnLeft => if negb (paused s) && negb (over s) then move (-1) 0 s else Ok s
  | BtnRight => if negb (paused s) && negb (over s) then move 1 0 s else Ok s
  | BtnDown => if negb (paused s) && negb (over s) then move 0 1 s else Ok s
  | BtnRotate => if negb (paused s) && negb (over s) then rotateCurrent s else Ok s
  | BtnDrop =>
      if negb (paused s) && negb (over s) then hardDrop fuel (draw1 e) s else Ok s
  | BtnHold =>
      if negb (paused s) && negb (over s) then doHold (draw1 e) s else Ok s
  | BtnPause => if negb (over s) then Ok (togglePause (now e) s) else Ok s
  end.

(** One event, handled to completion. *)
Definition handle (fuel : nat) (e : Env) (ev : Event) (s : State)
  : outcome State :=
  match ev with
  | KeyDown k => onKeyDown fuel e k s
  | Press b => onPress fuel e b s
  | Frame time => update fuel (draw1 e) time s
  | Restart => reset (draw1 e) (draw2 e) (now e) s
  end.

(** The state the [let] declarations at the end of the script set up,
    [r] being the draw of [next = randomPiece()]. *)
Definition declared (r : Tetro.t) : State :=
  mkState (createGrid COLS ROWS) (Num 0) 0 1 None (randomPiece r)
    800 0 0 false false None false.

(** The script runs [reset()] once when it is loaded. *)
Definition boot (r0 : Tetro.t) (e : Env) : outcome State :=
  reset (draw1 e) (draw2 e) (now e) (declared r0).

(** Events handled one after the other, each with its environment. *)
Fixpoint run (fuel : nat) (evs : list (Env * Event)) (s : State)
  : outcome State :=
  match evs with
  | [] => Ok s
  | (e, ev) :: rest => s' ← handle fuel e ev s; run fuel rest s'
  end.

(** The session states the script can be in between two events. *)
Inductive reachable : State -> Prop :=
| reach_boot r0 e s :
    boot r0 e = Ok s -> reachable s
| reach_step fuel e ev s s' :
    reachable s -> handle fuel e ev s = Ok s' -> reachable s'.

#[global] Instance jsnum_eq_dec : EqDecision jsnum.
Proof. solve_decision. Defined.

#[global] Instance State_eq_dec : EqDecision State.
Proof. solve_decision. Defined.

(** * Vocabulary of the statements *)

(** ** Grids *)

(** The grid the script maintains: [ROWS] rows of [COLS] slots. *)
Definition wfGrid (g : Grid) : Prop :=
  length g = Z.to_nat ROWS /\ Forall (fun row => length row = Z.to_nat COLS) g.

(** The slot at row [gy], column [gx] holds a colour. *)
Definition filled (g : Grid) (gy gx : Z) : bool :=
  match g !! Z.to_nat gy with
  | Some row =>
      match row !! Z.to_nat gx with
      | Some c => truthy c
      | None => false
      end
  | None => false
  end.

(** A cell at absolute position [(gx, gy)] is in the way: it is on or
    below the top row and either off the board or on a settled cell. *)
Definition blocked (g : Grid) (gx gy : Z) : bool :=
  (0 <=? gy) && ((gx <? 0) || (COLS <=? gx) || (ROWS <=? gy) || filled g gy gx).

(** Number of full rows of a grid. *)
Definition countFull (g : Grid) : Z :=
  Z.of_nat (length (filter (fun row => fullRow row = true) g)).

(** The rows of a grid that are not full, in order. *)
Definition keepRows (g : Grid) : Grid := filter (fun row => fullRow row = false) g.

(** No row is full. *)
Definition noFullRow (g : Grid) : Prop := Forall (fun row => fullRow row = false) g.

(** The grid [clearLines] leaves: the rows that are not full, pushed
    down, under one fresh empty row per full row. *)
Definition clearedGrid (g : Grid) : Grid :=
  replicate (Z.to_nat (countFull g)) (emptyRow COLS) ++ keepRows g.

(** What [clearLines] makes of a session whose grid has [n] full rows,
    spelled out field by field. *)
Definition afterClear (s : State) : State :=
  let n := countFull (grid s) in
  if n =? 0 then set_grid (clearedGrid (grid s)) s
  else
    mkState (clearedGrid (grid s))
      (jsadd (score s) (points n (level s)))
      (lines s + n)
      (if lines s + n >=? level s * 10 then level s + 1 else level s)
      (current s) (next s)
      (if lines s + n >=? level s * 10 then speedUp (dropInterval s)
       else dropInterval s)
      (lastTime s) (dropAccum s) (paused s) (over s) (holdType s)
      (holdUsed s).

(** ** Pieces *)

(** The piece [k] rows further down. *)
Definition down (k : Z) (p : Piece) : Piece := set_y (y p + k) p.

(** The piece [k] columns to the right. *)
Definition aside (k : Z) (p : Piece) : Piece := set_x (x p + k) p.

(** No cell of the piece is left of, right of or below the board. *)
Definition inBounds (p : Piece) : Prop :=
  forall c, c ∈ shape p -> 0 <= x p + cx c < COLS /\ y p + cy c < ROWS.

(** Every cell of the piece that is on or below the top row lies on the
    board. Cells above the top row are not constrained. *)
Definition visibleInBounds (p : Piece) : Prop :=
  forall c, c ∈ shape p ->
    0 <= y p + cy c -> 0 <= x p + cx c < COLS /\ y p + cy c < ROWS.

(** A piece as the engine builds them: four cells, each within the
    box from -1 to 3 that the quarter turn maps to itself, anchored no
    higher than the spawn row. *)
Definition pieceOK (p : Piece) : Prop :=
  length (shape p) = 4%nat
  /\ Forall (fun c => -1 <= cx c <= 3 /\ -1 <= cy c <= 3) (shape p)
  /\ -2 <= y p.

(** ** Sessions *)

(** What holds of the session between any two events: the grid has its
    size and no full row; there is an active piece, which does not
    collide unless the session is over; the next piece is as
    [pieceFromType] built it; the gravity period is the one that
    [level - 1] level-ups make of 800; the score is a number. *)
Record Inv (s : State) : Prop := mkInv {
  inv_wf : wfGrid (grid s);
  inv_nofull : noFullRow (grid s);
  inv_current :
    exists p, current s = Some p /\ pieceOK p
              /\ (over s = false -> collides (grid s) p = Ok false);
  inv_next : exists t, next s = pieceFromType t;
  inv_level : 1 <= level s;
  inv_speed : dropInterval s = Nat.iter (Z.to_nat (level s - 1)) speedUp 800;
  inv_score : exists v, score s = Num v;
  inv_lines : 0 <= lines s < level s * 10
}.

(** The bound up to which a double holds every whole number. Sums,
    differences and products of whole numbers within the bound are
    exact when the result is within the bound too. *)
Definition maxExact : Z := 2 ^ 53.

(** The counters are in the range in which [clearLines] computes on
    them exactly: [level * 10], [level + 1] and the points
    [table[n] * level] (at most [1200 * level]), [lines] plus the up to
    [ROWS] rows of one clear, and [score] plus the points. A score that
    is [NaN] stays [NaN]. *)
Definition exactCounters (s : State) : Prop :=
  1200 * Z.abs (level s) <= maxExact
  /\ Z.abs (lines s) + ROWS <= maxExact
  /\ match score s with
     | Num v => Z.abs v + 1200 * Z.abs (level s) <= maxExact
     | NaN => True
     end.

(** The gravity period is in the range of a session, in which
    [speedUp] is the script's computation on doubles. *)
Definition exactSpeed (s : State) : Prop := 0 <= dropInterval s <= 800.


(** [s'] is [s] with [q] as the active piece: every other variable of
    the session is as in [s]. *)
Definition onlyCurrent (q : Piece) (s s' : State) : Prop :=
  current s' = Some q
  /\ grid s' = grid s /\ score s' = score s /\ lines s' = lines s
  /\ level s' = level s /\ next s' = next s
  /\ dropInterval s' = dropInterval s /\ lastTime s' = lastTime s
  /\ dropAccum s' = dropAccum s /\ paused s' = paused s /\ over s' = over s
  /\ holdType s' = holdType s /\ holdUsed s' = holdUsed s.

(** The number of level-ups of a session: [level] starts at 1 and every
    level-up adds one. *)
Definition levelUps (s : State) : nat := Z.to_nat (level s - 1).

(** The closed form the specification gives for the gravity period
    after [k] level-ups, [max(80, round(800 * 0.85^k))], in exact
    arithmetic: [round(a / b)] is [floor((2a + b) / 2b)]. *)
Definition closedForm (k : nat) : Z :=
  Z.max 80 ((2 * (800 * 85 ^ Z.of_nat k) + 100 ^ Z.of_nat k)
            / (2 * 100 ^ Z.of_nat k)).

(** If the step from [s] to [s'] ended the session, the active piece
    of [s'] is an S or a Z. *)
Definition endedBySZ (s s' : State) : Prop :=
  over s = false -> over s' = true ->
  exists p, current s' = Some p /\ (type p = Tetro.S \/ type p = Tetro.Z).

(** ** Sample sessions *)

(** A fresh session on the empty board with [cur] in play. *)
Definition emptyState (cur : Piece) : State :=
  mkState (createGrid COLS ROWS) (Num 0) 0 1 (Some cur) (pieceFromType Tetro.O)
    800 0 0 false false None false.

(** An I piece turned upright and standing against the right wall, its
    cells in column 9, rows 1 to 4. *)
Definition wallI : Piece :=
  mkPiece Tetro.I [mkPt 1 0; mkPt 1 1; mkPt 1 2; mkPt 1 3] 8 1 1 "#00ffff".

(** A grid whose bottom row is full. *)
Definition bottomFull : Grid :=
  replicate 19 (emptyRow COLS) ++ [replicate 10 (Color "#00ffff")].

(** A session on [bottomFull], one line short of the second level. *)
Definition nineLines : State :=
  mkState bottomFull (Num 0) 9 1 (Some (pieceFromType Tetro.T))
    (pieceFromType Tetro.O) 800 0 0 false false None false.

(** A bottom row with a gap in columns 4 and 5. *)
Definition gapRow : Row :=
  replicate 4 (Color "#00ffff") ++ [Null; Null] ++ replicate 4 (Color "#00ffff").

(** An O piece lying on the floor, in columns 4 and 5. *)
Definition restingO : Piece := set_y 18 (pieceFromType Tetro.O).

(** A session at level 2 with 19 lines, about to lock [restingO] into
    the gap of the bottom row. *)
Definition almost : State :=
  mkState (replicate 19 (emptyRow COLS) ++ [gapRow]) (Num 100) 19 2
    (Some restingO) (pieceFromType Tetro.L) 680 0 0 false false None false.

(** Environments whose draws are all of one kind. *)
Definition envO : Env := mkEnv 0 Tetro.O Tetro.O.
Definition envS : Env := mkEnv 0 Tetro.S Tetro.S.
Definition envI : Env := mkEnv 0 Tetro.I Tetro.O.

Definition key (c : Key) : Env * Event := (envO, KeyDown c).

(** Ten O pieces dropped one on the other, every draw being an O: the
    two middle columns are filled to the top row. *)
Definition towerEvents : list (Env * Event) := replicate 10 (key Space).

Definition tower : State :=
  Eval vm_compute in
    match s ← boot Tetro.O envO; run 41 towerEvents s with
    | Ok s => s
    | _ => declared Tetro.O
    end.

(** The tower again, the last draw being an S: the piece in play is an
    O that cannot move, the next piece is an S. *)
Definition towerEventsS : list (Env * Event) :=
  replicate 9 (key Space) ++ [(envS, KeyDown Space)].

Definition towerS : State :=
  Eval vm_compute in
    match s ← boot Tetro.O envO; run 41 towerEventsS s with
    | Ok s => s
    | _ => declared Tetro.O
    end.

(** An O piece walked down to the floor of the empty board with the
    down key. *)
Definition floorEvents : list (Env * Event) := replicate 20 (key ArrowDown).

Definition onFloor : State :=
  Eval vm_compute in
    match s ← boot Tetro.O envO; run 41 floorEvents s with
    | Ok s => s
    | _ => declared Tetro.O
    end.

(** An I piece, turned once at the spawn and moved three columns to the
    left: upright in column 1, rows -2 to 1. *)
Definition uprightEvents : list (Env * Event) :=
  (envI, KeyDown ArrowUp) :: replicate 3 (envI, KeyDown ArrowLeft).

Definition upright : State :=
  Eval vm_compute in
    match s ← boot Tetro.O envI; run 41 uprightEvents s with
    | Ok s => s
    | _ => declared Tetro.O
    end.

(** Five O pieces side by side: two full rows. *)
Definition twoRows : list (Env * Event) :=
  replicate 4 (key ArrowLeft) ++ [key Space]
  ++ replicate 2 (key ArrowLeft) ++ [key Space]
  ++ [key Space]
  ++ replicate 2 (key ArrowRight) ++ [key Space]
  ++ replicate 4 (key ArrowRight) ++ [key Space].

(** Forty lines, cleared two at a time. *)
Definition fortyLines : State :=
  Eval vm_compute in
    match s ← boot Tetro.O envO; run 41 (concat (replicate 20 twoRows)) s with
    | Ok s => s
    | _ => declared Tetro.O
    end.

(** A session with an I in the hold slot, a T in play and an L next,
    the hold being allowed: from the start with an I in play the I was
    held, and the O that came into play was dropped. *)
Definition heldEvents : list (Env * Event) :=
  [(mkEnv 0 Tetro.T Tetro.T, KeyDown KeyC); (mkEnv 0 Tetro.L Tetro.L, KeyDown Space)].

Definition heldI : State :=
  Eval vm_compute in
    match s ← boot Tetro.O envI; run 41 heldEvents s with
    | Ok s => s
    | _ => declared Tetro.O
    end.

(** ** Vocabulary of the further properties *)

(** The slot at row [gy], column [gx] of a grid, if there is one. *)
Definition cellAt (g : Grid) (gy gx : Z) : option Cell :=
  match g !! Z.to_nat gy with
  | Some row => row !! Z.to_nat gx
  | None => None
  end.

(** The piece has a cell at the absolute position [(gx, gy)]. *)
Definition covers (p : Piece) (gx gy : Z) : bool :=
  existsb (fun c => (x p + cx c =? gx) && (y p + cy c =? gy)) (shape p).

(** The event is one of the two that toggle the pause. *)
Definition isPauseEvent (ev : Event) : bool :=
  match ev with
  | KeyDown KeyP | Press BtnPause => true
  | _ => false
  end.

(** The event is the click on restart. *)
Definition isRestart (ev : Event) : bool :=
  match ev with
  | Restart => true
  | _ => false
  end.

(** The four counters of a session. *)
Definition counters (s : State) : jsnum * Z * Z * Z :=
  (score s, lines s, level s, dropInterval s).

(** The counters of [s'] are those of [s] after a clear of [n] rows:
    points for [n] rows at the level of [s], [n] more lines, and a
    level-up with its faster gravity if the lines reach ten times the
    level. *)
Definition scoring (n : Z) (s s' : State) : Prop :=
  score s' = jsadd (score s) (points n (level s))
  /\ lines s' = lines s + n
  /\ level s' = (if lines s + n >=? level s * 10 then level s + 1 else level s)
  /\ dropInterval s'
     = (if lines s + n >=? level s * 10 then speedUp (dropInterval s)
        else dropInterval s).

(** [k] presses of the down key, one after the other. *)
Fixpoint softDrops (k : nat) (s : State) : outcome State :=
  match k with
  | O => Ok s
  | S k' => s1 ← move 0 1 s; softDrops k' s1
  end.

(** One quarter turn of a shape. *)
Definition turn (sh : list Pt) : list Pt :=
  map (fun q => mkPt (2 - cy q) (cx q)) sh.

(** The piece is what its kind and its [rot] say: [rot] is one of 0 to
    3, the shape is the shape of the kind turned [rot] times, the
    colour is the colour of the kind. *)
Definition canonical (p : Piece) : Prop :=
  0 <= rot p < 4
  /\ shape p = Nat.iter (Z.to_nat (rot p)) turn (SHAPES (type p))
  /\ color p = COLORS (type p).

(** A slot as the engine leaves it: [null] or the colour of a kind. *)
Definition settledCell (c : Cell) : Prop :=
  c = Null \/ exists t, c = Color (COLORS t).

Definition settledGrid (g : Grid) : Prop := Forall (Forall settledCell) g.

(** The second part of the session invariant: the slots of the grid
    are settled cells and the active piece is canonical. *)
Definition Inv2 (s : State) : Prop :=
  settledGrid (grid s) /\ exists p, current s = Some p /\ canonical p.

(** * Properties *)

(** ** Sequencing of outcomes *)

(** The call at hand completes with the state that the goal then
    speaks about. *)
Ltac ok_result := eexists; split; [reflexivity|].

Lemma bind_Ok {A B} (f : A -> outcome B) (a : A) : (Ok a ≫= f) = f a.
Proof. reflexivity. Qed.

Lemma bind_Ok_inv {A B} (f : A -> outcome B) (m : outcome A) (b : B) :
  m ≫= f = Ok b -> exists a, m = Ok a /\ f a = Ok b.
Proof. destruct m; simpl; intros H; try discriminate. eauto. Qed.

(** ** Doubles *)

(** On the gravity periods of a session, and on every whole number
    from 0 to 800, [speedUp] is what the script computes on doubles:
    the product with the double of [0.85] has the floor
    [d * 85 / 100], and the maximum with 80 is taken of whole
    numbers. *)
Lemma speedUp_double d : 0 <= d <= 800 -> speedUpAgrees d = true.
Proof.
  intros Hd.
  assert (forallb speedUpAgrees (map Z.of_nat (seq 0 801)) = true) as Hall
    by (vm_compute; reflexivity).
  rewrite forallb_forall in Hall. apply Hall.
  apply in_map_iff. exists (Z.to_nat d). split; [lia|].
  apply in_seq. lia.
Qed.

(** Beyond [maxExact] the sum of two doubles need not be the sum of
    the numbers they hold, so the bounds of [exactCounters] are
    needed: at a score of 2^56 the script adds 32 where 40 are due. *)
Example double_sum_rounds :
  PrimFloat.add (toDouble (2 ^ 56)) (toDouble 40) = toDouble (2 ^ 56 + 32)
  /\ jsadd (Num (2 ^ 56)) (Num 40) = Num (2 ^ 56 + 40).
Proof. split; [vm_compute; reflexivity|reflexivity]. Qed.

(** ** The definitions at work *)

Example rotate_T :
  shape (rotate (pieceFromType Tetro.T)) = [mkPt 2 1; mkPt 1 0; mkPt 1 1; mkPt 1 2]
  /\ rot (rotate (rotate (rotate (rotate (pieceFromType Tetro.T))))) = 0.
Proof. split; reflexivity. Qed.

Example collides_on_empty_board :
  collides (createGrid COLS ROWS) (pieceFromType Tetro.S) = Ok false
  /\ collides (createGrid COLS ROWS) (set_y 18 (pieceFromType Tetro.O)) = Ok false
  /\ collides (createGrid COLS ROWS) (set_y 19 (pieceFromType Tetro.O)) = Ok true
  /\ collides (createGrid COLS ROWS) (set_y 5 (set_x (-2) (pieceFromType Tetro.O)))
     = Ok true
  /\ collides (createGrid COLS ROWS) (set_x (-2) (pieceFromType Tetro.O)) = Ok false.
Proof. repeat split. Qed.

Example collides_short_grid :
  collides [emptyRow COLS] (set_y 5 (pieceFromType Tetro.O)) = TypeError.
Proof. reflexivity. Qed.

Example speedUp_steps :
  map (fun k => Nat.iter k speedUp 800) (seq 0 16)
  = [800; 680; 578; 491; 417; 354; 300; 255; 216; 183; 155; 131; 111; 94; 80; 80].
Proof. reflexivity. Qed.

Example clearLoop_two_rows :
  clearLoop 41 (replicate 18 (emptyRow COLS)
                ++ [replicate 10 (Color "#00ffff"); replicate 10 (Color "#f1e05a")])
    (ROWS - 1) 0
  = Ok (createGrid COLS ROWS, 2).
Proof. reflexivity. Qed.

Example clearLoop_short_of_fuel :
  clearLoop 20 (createGrid COLS ROWS) (ROWS - 1) 0 = OutOfFuel.
Proof. reflexivity. Qed.

(** ** Reading [collides] *)

Lemma clonePiece_id p : clonePiece p = p.
Proof.
  destruct p as [t sh px py r c]. unfold clonePiece. simpl. f_equal.
  induction sh as [|[a b] sh IH]; simpl; [reflexivity|]. now rewrite IH.
Qed.

Lemma pieceFromType_shape t : shape (pieceFromType t) = SHAPES t.
Proof. destruct t; reflexivity. Qed.

Lemma wfGrid_row g i row : wfGrid g -> g !! i = Some row -> length row = Z.to_nat COLS.
Proof.
  intros [_ Hrows] Hi. rewrite Forall_forall in Hrows.
  apply Hrows. eapply list_elem_of_lookup_2; eauto.
Qed.

Lemma wfGrid_lookup g gy : wfGrid g -> 0 <= gy < ROWS -> exists row, g !! Z.to_nat gy = Some row.
Proof.
  intros [Hlen _] Hgy. apply lookup_lt_is_Some_2. rewrite Hlen. unfold ROWS in *. lia.
Qed.

Lemma occupied_wf g gy gx :
  wfGrid g -> 0 <= gy < ROWS -> occupied g gy gx = Ok (filled g gy gx).
Proof.
  intros Hwf Hgy. destruct (wfGrid_lookup g gy Hwf Hgy) as [row Hrow].
  unfold occupied, filled. now rewrite Hrow.
Qed.

(** On a grid of the right size [collides] never throws, and it answers
    whether some cell of the piece is blocked. *)
Lemma collidesCells_wf g px py cells :
  wfGrid g ->
  collidesCells g px py cells
  = Ok (existsb (fun c => blocked g (px + cx c) (py + cy c)) cells).
Proof.
  intros Hwf. induction cells as [|c rest IH]; simpl; [reflexivity|].
  unfold blocked at 1.
  destruct (Z.ltb_spec (py + cy c) 0) as [Hneg|Hpos].
  - replace (0 <=? py + cy c) with false by (symmetry; apply Z.leb_gt; lia).
    simpl. exact IH.
  - replace (0 <=? py + cy c) with true by (symmetry; apply Z.leb_le; lia).
    simpl.
    replace (px + cx c >=? COLS) with (COLS <=? px + cx c) by (rewrite Z.geb_leb; reflexivity).
    replace (py + cy c >=? ROWS) with (ROWS <=? py + cy c) by (rewrite Z.geb_leb; reflexivity).
    destruct ((px + cx c <? 0) || (COLS <=? px + cx c) || (ROWS <=? py + cy c)) eqn:Hout.
    + reflexivity.
    + apply orb_false_iff in Hout as [Hout Hrow].
      apply Z.leb_gt in Hrow.
      rewrite occupied_wf by (auto; lia). rewrite bind_Ok.
      simpl. destruct (filled g (py + cy c) (px + cx c)); [reflexivity|exact IH].
Qed.

Lemma collides_wf g p :
  wfGrid g ->
  collides g p = Ok (existsb (fun c => blocked g (x p + cx c) (y p + cy c)) (shape p)).
Proof. apply collidesCells_wf. Qed.

Lemma collides_false_iff g p :
  wfGrid g ->
  collides g p = Ok false <->
  (forall c, c ∈ shape p -> blocked g (x p + cx c) (y p + cy c) = false).
Proof.
  intros Hwf. rewrite collides_wf by assumption. split.
  - intros H c Hc. injection H as H.
    destruct (blocked g (x p + cx c) (y p + cy c)) eqn:Hb; [|reflexivity].
    assert (existsb (fun c => blocked g (x p + cx c) (y p + cy c)) (shape p) = true) as Ht.
    { apply existsb_exists. exists c. split; [now apply list_elem_of_In|exact Hb]. }
    congruence.
  - intros H. f_equal.
    destruct (existsb _ (shape p)) eqn:He; [|reflexivity].
    apply existsb_exists in He as (c & Hc & Hb).
    rewrite H in Hb by (now apply list_elem_of_In). discriminate.
Qed.

(** ** The scan of [clearLines] *)

Lemma emptyRow_not_full : fullRow (emptyRow COLS) = false.
Proof. reflexivity. Qed.

Lemma replicate_app_cons {A} (k : nat) (a : A) (l : list A) :
  replicate k a ++ a :: l = replicate (S k) a ++ l.
Proof. induction k as [|k IH]; simpl; [reflexivity|]. now rewrite IH. Qed.

Lemma take_prefix_delete {A} (l : list A) (m : nat) : take m (delete m l) = take m l.
Proof.
  revert m. induction l as [|a l IH]; intros [|m]; simpl; try reflexivity.
  now rewrite IH.
Qed.

Lemma drop_suffix_delete {A} (l : list A) (m : nat) :
  (m < length l)%nat -> drop m (delete m l) = drop (S m) l.
Proof.
  revert m. induction l as [|a l IH]; intros [|m] Hm; simpl in *; try lia.
  - reflexivity.
  - apply IH. lia.
Qed.

(** The scan started at index [n - 1] turns the first [n] rows into
    their non-full rows, preceded by one empty row per full row, and
    counts the full rows; [n] rounds plus one per cleared row plus the
    closing test is all the fuel it takes. *)
Lemma clearLoop_spec fuel : forall (n : nat) (g : Grid) (c : Z),
  (n <= length g)%nat ->
  (n + length (filter (fun row => fullRow row = true) (take n g)) < fuel)%nat ->
  clearLoop fuel g (Z.of_nat n - 1) c
  = Ok (replicate (length (filter (fun row => fullRow row = true) (take n g)))
          (emptyRow COLS)
        ++ keepRows (take n g) ++ drop n g,
        c + Z.of_nat (length (filter (fun row => fullRow row = true) (take n g)))).
Proof.
  induction fuel as [|fuel IH]; intros n g c Hn Hfuel; [lia|].
  destruct n as [|m].
  - simpl. f_equal. f_equal. lia.
  - remember (Z.of_nat (S m) - 1) as yy eqn:Hyy.
    cbn [clearLoop].
    replace (yy >=? 0) with true
      by (symmetry; rewrite Z.geb_leb; apply Z.leb_le; lia).
    replace (Z.to_nat yy) with m by lia.
    destruct (lookup_lt_is_Some_2 g m) as [row Hrow]; [lia|].
    rewrite Hrow. rewrite (take_S_r _ _ _ Hrow) in *.
    rewrite filter_app in Hfuel. rewrite filter_app. unfold keepRows at 1.
    rewrite filter_app.
    destruct (fullRow row) eqn:Hfull.
    + rewrite (filter_cons_True _ row []) in * by exact Hfull.
      rewrite (filter_cons_False (fun r => fullRow r = false) row [])
        by (rewrite Hfull; discriminate).
      rewrite filter_nil, length_app in *. cbn [length] in *.
      replace (yy + 1 - 1) with (Z.of_nat (S m) - 1) by lia.
      assert (take (S m) (emptyRow COLS :: delete m g) = emptyRow COLS :: take m g) as Htake.
      { cbn [take]. now rewrite take_prefix_delete. }
      assert (drop (S m) (emptyRow COLS :: delete m g) = drop (S m) g) as Hdrop.
      { cbn [drop]. apply drop_suffix_delete. lia. }
      rewrite IH.
      * rewrite Htake, Hdrop.
        rewrite (filter_cons_False (fun r => fullRow r = true) (emptyRow COLS))
          by (rewrite emptyRow_not_full; discriminate).
        unfold keepRows.
        rewrite (filter_cons_True (fun r => fullRow r = false) (emptyRow COLS))
          by apply emptyRow_not_full.
        f_equal. f_equal.
        -- rewrite app_nil_r. cbn [app].
           rewrite replicate_app_cons. f_equal. f_equal. lia.
        -- lia.
      * cbn [length]. rewrite length_delete by eauto. lia.
      * rewrite Htake.
        rewrite (filter_cons_False (fun r => fullRow r = true) (emptyRow COLS))
          by (rewrite emptyRow_not_full; discriminate).
        lia.
    + rewrite (filter_cons_False _ row []) in * by (rewrite Hfull; discriminate).
      rewrite (filter_cons_True (fun r => fullRow r = false) row []) by exact Hfull.
      rewrite filter_nil, app_nil_r in *.
      replace (yy - 1) with (Z.of_nat m - 1) by lia.
      rewrite IH by lia.
      f_equal. f_equal. f_equal. unfold keepRows. rewrite <- app_assoc.
      f_equal. rewrite (drop_S _ _ _ Hrow). reflexivity.
Qed.

Lemma clearLoop_full fuel g :
  length g = Z.to_nat ROWS -> (41 <= fuel)%nat ->
  clearLoop fuel g (ROWS - 1) 0 = Ok (clearedGrid g, countFull g).
Proof.
  intros Hlen Hfuel.
  pose proof (length_filter (fun row => fullRow row = true) g) as Hle.
  replace (ROWS - 1) with (Z.of_nat (length g) - 1) by (rewrite Hlen; reflexivity).
  rewrite clearLoop_spec.
  - rewrite firstn_all, drop_all, app_nil_r. unfold clearedGrid, countFull.
    rewrite Nat2Z.id. reflexivity.
  - lia.
  - rewrite firstn_all. rewrite Hlen in *. unfold ROWS in *. simpl in *. lia.
Qed.

Lemma filter_full_keep_length (g : Grid) :
  (length (filter (fun row => fullRow row = true) g) + length (keepRows g))%nat
  = length g.
Proof.
  unfold keepRows. induction g as [|row g IH]; [reflexivity|].
  destruct (fullRow row) eqn:Hfull.
  - rewrite filter_cons_True by exact Hfull.
    rewrite (filter_cons_False (fun r => fullRow r = false))
      by (rewrite Hfull; discriminate).
    simpl. lia.
  - rewrite filter_cons_False by (rewrite Hfull; discriminate).
    rewrite (filter_cons_True (fun r => fullRow r = false)) by exact Hfull.
    simpl. lia.
Qed.

Lemma countFull_bounds g : 0 <= countFull g <= Z.of_nat (length g).
Proof.
  unfold countFull.
  pose proof (length_filter (fun row => fullRow row = true) g). lia.
Qed.

Lemma keepRows_id g : countFull g = 0 -> keepRows g = g.
Proof.
  unfold countFull, keepRows. induction g as [|row g IH]; intros H; [reflexivity|].
  destruct (fullRow row) eqn:Hfull.
  - rewrite filter_cons_True in H by exact Hfull. simpl in H. lia.
  - rewrite filter_cons_False in H by (rewrite Hfull; discriminate).
    rewrite filter_cons_True by exact Hfull. f_equal. auto.
Qed.

Lemma clearedGrid_id g : countFull g = 0 -> clearedGrid g = g.
Proof. intros H. unfold clearedGrid. rewrite H. simpl. now apply keepRows_id. Qed.

Lemma noFullRow_countFull g : noFullRow g -> countFull g = 0.
Proof.
  unfold noFullRow, countFull. induction 1 as [|row g Hrow _ IH]; [reflexivity|].
  rewrite filter_cons_False by (rewrite Hrow; discriminate). exact IH.
Qed.

Lemma clearedGrid_length g : length (clearedGrid g) = length g.
Proof.
  unfold clearedGrid, countFull. rewrite length_app, length_replicate, Nat2Z.id.
  apply filter_full_keep_length.
Qed.

Lemma clearedGrid_wf g : wfGrid g -> wfGrid (clearedGrid g).
Proof.
  intros [Hlen Hrows]. split.
  - now rewrite clearedGrid_length.
  - unfold clearedGrid. apply Forall_app. split.
    + apply Forall_replicate. reflexivity.
    + unfold keepRows. rewrite Forall_forall in *. intros row Hrow.
      apply list_elem_of_filter in Hrow as [_ Hrow]. auto.
Qed.

Lemma clearedGrid_noFull g : noFullRow (clearedGrid g).
Proof.
  unfold noFullRow, clearedGrid. apply Forall_app. split.
  - apply Forall_replicate. apply emptyRow_not_full.
  - unfold keepRows. rewrite Forall_forall. intros row Hrow.
    now apply list_elem_of_filter in Hrow as [Hrow _].
Qed.

Lemma clearLines_run fuel s :
  length (grid s) = Z.to_nat ROWS -> (41 <= fuel)%nat ->
  clearLines fuel s = Ok (Undefined, afterClear s).
Proof.
  intros Hlen Hfuel. unfold clearLines, afterClear.
  rewrite clearLoop_full by assumption. rewrite bind_Ok. cbn beta iota zeta.
  destruct (countFull (grid s) =? 0); [reflexivity|].
  f_equal. f_equal. cbn.
  destruct (lines s + countFull (grid s) >=? level s * 10); reflexivity.
Qed.

(** ** Merging a piece *)

Lemma blocked_false g gx gy :
  blocked g gx gy = false ->
  gy < 0 \/ (0 <= gx < COLS /\ 0 <= gy < ROWS /\ filled g gy gx = false).
Proof.
  unfold blocked. intros H. apply andb_false_iff in H as [H|H].
  - left. apply Z.leb_gt in H. lia.
  - destruct (Z.ltb_spec gy 0); [now left|right].
    apply orb_false_iff in H as [H Hf]. apply orb_false_iff in H as [H Hr].
    apply orb_false_iff in H as [Hl Hc].
    apply Z.ltb_ge in Hl. apply Z.leb_gt in Hc. apply Z.leb_gt in Hr.
    repeat split; try lia. exact Hf.
Qed.

Lemma collides_false_visible g p :
  wfGrid g -> collides g p = Ok false -> visibleInBounds p.
Proof.
  intros Hwf Hc c Hin Hy.
  rewrite collides_false_iff in Hc by assumption.
  specialize (Hc c Hin). apply blocked_false in Hc. lia.
Qed.

Lemma filter_insert_length {A} (P : A -> Prop) `{!forall a, Decision (P a)}
    (l : list A) (i : nat) (v : A) :
  (length (filter P (<[i:=v]> l)) <= S (length (filter P l)))%nat.
Proof.
  revert i. induction l as [|a l IH]; intros [|i]; simpl; try lia.
  - rewrite !filter_cons. repeat case_decide; simpl; lia.
  - rewrite !filter_cons. specialize (IH i). case_decide; simpl; lia.
Qed.

Lemma setCell_wf g gy gx v :
  wfGrid g -> 0 <= gy < ROWS -> 0 <= gx < COLS ->
  exists g', setCell g gy gx v = Ok g' /\ wfGrid g' /\ countFull g' <= countFull g + 1.
Proof.
  intros Hwf Hgy Hgx. destruct (wfGrid_lookup g gy Hwf Hgy) as [row Hrow].
  unfold setCell. rewrite Hrow. ok_result. split.
  - destruct Hwf as [Hlen Hrows]. split.
    + now rewrite length_insert.
    + apply Forall_insert; [exact Hrows|].
      pose proof (wfGrid_row g _ row (conj Hlen Hrows) Hrow) as Hr.
      unfold rowSet.
      replace (gx <? 0) with false by (symmetry; apply Z.ltb_ge; lia).
      replace (Z.to_nat gx <? length row)%nat with true
        by (symmetry; apply Nat.ltb_lt; rewrite Hr; unfold COLS in *; lia).
      now rewrite length_insert.
  - unfold countFull.
    pose proof (filter_insert_length (fun r => fullRow r = true) g (Z.to_nat gy)
                  (rowSet row gx v)). lia.
Qed.

Lemma mergeCells_wf px py col cells : forall g,
  wfGrid g ->
  (forall c, c ∈ cells -> 0 <= py + cy c -> 0 <= px + cx c < COLS /\ py + cy c < ROWS) ->
  exists g', mergeCells g px py col cells = Ok g' /\ wfGrid g'
             /\ countFull g' <= countFull g + Z.of_nat (length cells).
Proof.
  induction cells as [|c rest IH]; intros g Hwf Hin.
  - exists g. simpl. split; [reflexivity|]. split; [assumption|lia].
  - cbn [mergeCells].
    assert (forall c', c' ∈ rest -> 0 <= py + cy c' ->
              0 <= px + cx c' < COLS /\ py + cy c' < ROWS) as Hrest.
    { intros c' Hc'. apply Hin. now right. }
    destruct (Z.geb_spec (py + cy c) 0) as [Hy|Hy].
    + destruct (Hin c) as [Hx Hr]; [left|lia|].
      destruct (setCell_wf g (py + cy c) (px + cx c) (Color col)) as (g1 & -> & Hwf1 & Hc1);
        [assumption|lia|lia|].
      rewrite bind_Ok. destruct (IH g1 Hwf1 Hrest) as (g' & -> & Hwf' & Hc').
      exists g'. split; [reflexivity|]. split; [assumption|]. cbn [length]. lia.
    + destruct (IH g Hwf Hrest) as (g' & -> & Hwf' & Hc').
      exists g'. split; [reflexivity|]. split; [assumption|]. cbn [length]. lia.
Qed.

Lemma merge_wf g p :
  wfGrid g -> visibleInBounds p ->
  exists g', merge g p = Ok g' /\ wfGrid g'
             /\ countFull g' <= countFull g + Z.of_nat (length (shape p)).
Proof. intros Hwf Hv. apply mergeCells_wf; assumption. Qed.

(** ** Dropping *)

Lemma down_0 p : down 0 p = p.
Proof. destruct p. unfold down, set_y. simpl. f_equal. lia. Qed.

Lemma down_down a b p : down a (down b p) = down (b + a) p.
Proof. destruct p. unfold down, set_y. simpl. f_equal. lia. Qed.

Lemma collides_floor g p c0 rest :
  shape p = c0 :: rest -> ROWS <= y p + cy c0 -> collides g p = Ok true.
Proof.
  intros Hs Hy. unfold collides. rewrite Hs. cbn [collidesCells].
  replace (y p + cy c0 <? 0) with false
    by (symmetry; apply Z.ltb_ge; unfold ROWS in *; lia).
  replace (y p + cy c0 >=? ROWS) with true
    by (symmetry; rewrite Z.geb_leb; apply Z.leb_le; lia).
  now rewrite !orb_true_r.
Qed.

(** The loop of [hardDrop] ends: with a grid of the right size and a
    piece that has a cell, it stops at the first row offset [k] from
    which one more step down collides. *)
Lemma dropLoop_spec fuel : forall g cur moved c0 rest,
  wfGrid g -> shape cur = c0 :: rest ->
  (Z.to_nat (ROWS - (y cur + cy c0)) < fuel)%nat ->
  exists k, 0 <= k
    /\ (forall j, 1 <= j <= k -> collides g (down j cur) = Ok false)
    /\ collides g (down (k + 1) cur) = Ok true
    /\ dropLoop fuel g cur moved = Ok (down k cur, moved || (0 <? k)).
Proof.
  induction fuel as [|fuel IH]; intros g cur moved c0 rest Hwf Hs Hfuel; [lia|].
  cbn [dropLoop]. rewrite clonePiece_id. fold (down 1 cur).
  destruct (Z.le_gt_cases ROWS (y cur + 1 + cy c0)) as [Hfloor|Hair].
  - exists 0. change (0 + 1) with 1.
    rewrite (collides_floor g (down 1 cur) c0 rest) by (simpl; auto).
    split; [lia|]. split; [intros; lia|]. split; [reflexivity|].
    rewrite bind_Ok, down_0, orb_false_r. reflexivity.
  - rewrite (collides_wf g (down 1 cur)) by assumption. rewrite bind_Ok.
    destruct (existsb _ (shape (down 1 cur))) eqn:Hhit.
    + exists 0. change (0 + 1) with 1. split; [lia|]. split; [intros; lia|]. split.
      * rewrite collides_wf by assumption. now rewrite Hhit.
      * rewrite down_0, orb_false_r. reflexivity.
    + destruct (IH g (down 1 cur) true c0 rest Hwf) as (k & Hk & Hfree & Hstop & Hrun).
      * exact Hs.
      * simpl. lia.
      * exists (k + 1). split; [lia|]. split; [|split].
        -- intros j Hj. destruct (Z.eq_dec j 1) as [->|Hne].
           ++ rewrite collides_wf by assumption. now rewrite Hhit.
           ++ specialize (Hfree (j - 1)). rewrite down_down in Hfree.
              replace (1 + (j - 1)) with j in Hfree by lia. apply Hfree. lia.
        -- rewrite down_down in Hstop.
           replace (k + 1 + 1) with (1 + (k + 1)) by lia. exact Hstop.
        -- rewrite Hrun, down_down. f_equal. f_equal; [f_equal; lia|].
           replace (0 <? k + 1) with true by (symmetry; apply Z.ltb_lt; lia).
           now rewrite orb_true_r.
Qed.

(** ** The session invariant *)

Lemma pieceFromType_ok t : pieceOK (pieceFromType t).
Proof.
  destruct t; (split; [reflexivity|]; split; [|simpl; lia]);
    simpl; repeat constructor; simpl; lia.
Qed.

Lemma pieceFromType_anchor t :
  set_rot 0 (set_y (-2) (set_x 3 (pieceFromType t))) = pieceFromType t.
Proof. reflexivity. Qed.

Lemma rotate_ok p : pieceOK p -> pieceOK (rotate p).
Proof.
  intros (Hlen & Hbox & Hy). unfold rotate. rewrite clonePiece_id.
  split; [|split]; simpl.
  - now rewrite length_map.
  - apply Forall_map. eapply Forall_impl; [exact Hbox|].
    simpl. intros c Hc. lia.
  - exact Hy.
Qed.

Lemma aside_ok k p : pieceOK p -> pieceOK (aside k p).
Proof. intros H. exact H. Qed.

Lemma down_ok k p : 0 <= k -> pieceOK p -> pieceOK (down k p).
Proof. intros Hk (Hlen & Hbox & Hy). split; [|split]; simpl; auto. lia. Qed.

Lemma pieceOK_first p : pieceOK p ->
  exists c0 rest, shape p = c0 :: rest /\ -1 <= cy c0 <= 3.
Proof.
  intros (Hlen & Hbox & _). destruct (shape p) as [|c0 rest]; [discriminate|].
  exists c0, rest. split; [reflexivity|]. inversion Hbox; subst. lia.
Qed.

(** [spawn] on a grid of the right size: the next piece goes to the
    anchor, and the game is over exactly if it collides there. *)
Lemma spawn_run r s :
  wfGrid (grid s) ->
  exists b, collides (grid s) (set_rot 0 (set_y (-2) (set_x 3 (next s)))) = Ok b
    /\ spawn r s
       = Ok (mkState (grid s) (score s) (lines s) (level s)
               (Some (set_rot 0 (set_y (-2) (set_x 3 (next s)))))
               (randomPiece r) (dropInterval s) (lastTime s) (dropAccum s)
               (paused s) (over s || b) (holdType s) false).
Proof.
  intros Hwf. unfold spawn. cbn [grid set_holdUsed set_current set_next].
  rewrite collides_wf by assumption.
  ok_result. rewrite bind_Ok.
  destruct (existsb _ _); destruct s; simpl; rewrite ?orb_true_r, ?orb_false_r;
    reflexivity.
Qed.

Lemma spawn_Inv r s s' :
  wfGrid (grid s) -> noFullRow (grid s) -> (exists t, next s = pieceFromType t) ->
  1 <= level s -> dropInterval s = Nat.iter (Z.to_nat (level s - 1)) speedUp 800 ->
  (exists v, score s = Num v) -> 0 <= lines s < level s * 10 ->
  spawn r s = Ok s' -> Inv s'.
Proof.
  intros Hwf Hnf [t Ht] Hlvl Hspd Hsc Hln Hrun.
  destruct (spawn_run r s Hwf) as (b & Hb & Hs). rewrite Hs in Hrun.
  injection Hrun as <-. rewrite Ht, pieceFromType_anchor in *.
  constructor; simpl; try assumption.
  - exists (pieceFromType t). split; [reflexivity|]. split; [apply pieceFromType_ok|].
    intros Hov. apply orb_false_iff in Hov as [_ ->]. exact Hb.
  - now exists r.
Qed.

Lemma afterClear_grid s : grid (afterClear s) = clearedGrid (grid s).
Proof. unfold afterClear. cbn zeta. now destruct (countFull (grid s) =? 0). Qed.

Lemma afterClear_next s : next (afterClear s) = next s.
Proof. unfold afterClear. cbn zeta. now destruct (countFull (grid s) =? 0). Qed.

Lemma points_in_table n lvl :
  1 <= n <= 4 -> points n lvl = Num (nth (Z.to_nat n) scoreTable 0 * lvl).
Proof.
  intros Hn. unfold points.
  assert (n = 1 \/ n = 2 \/ n = 3 \/ n = 4) as [->|[->|[->| ->]]] by lia;
    reflexivity.
Qed.

Lemma speedUp_iter k : speedUp (Nat.iter k speedUp 800) = Nat.iter (S k) speedUp 800.
Proof. reflexivity. Qed.

(** [tickLock] with a piece that does not collide: the merge stays on
    the board, at most four rows become full, and the rest is the
    bookkeeping of [clearLines] followed by [spawn]. *)
Lemma tickLock_run fuel r s p :
  wfGrid (grid s) -> noFullRow (grid s) -> current s = Some p ->
  (length (shape p) <= 4)%nat -> collides (grid s) p = Ok false ->
  (41 <= fuel)%nat ->
  exists g, merge (grid s) p = Ok g /\ wfGrid g /\ 0 <= countFull g <= 4
    /\ tickLock fuel r s = spawn r (afterClear (set_grid g s)).
Proof.
  intros Hwf Hnf Hcur Hlen Hfree Hfuel.
  destruct (merge_wf (grid s) p Hwf (collides_false_visible _ _ Hwf Hfree))
    as (g & Hm & Hwfg & Hcount).
  exists g. split; [exact Hm|]. split; [exact Hwfg|]. split.
  - rewrite (noFullRow_countFull _ Hnf) in Hcount.
    pose proof (countFull_bounds g). lia.
  - unfold tickLock. rewrite Hcur, Hm, bind_Ok.
    rewrite clearLines_run by (try assumption; apply Hwfg).
    reflexivity.
Qed.

Lemma tickLock_Inv fuel r s :
  Inv s -> over s = false -> (41 <= fuel)%nat ->
  exists s', tickLock fuel r s = Ok s' /\ Inv s'.
Proof.
  intros [Hwf Hnf (p & Hcur & (Hlen & _) & Hfree) Hnext Hlvl Hspd [v Hv] Hln] Hov Hfuel.
  destruct (tickLock_run fuel r s p) as (g & Hm & Hwfg & Hcount & Hrun);
    try assumption; [lia|auto|].
  rewrite Hrun.
  destruct (spawn_run r (afterClear (set_grid g s))) as (b & Hb & Hs).
  { rewrite afterClear_grid. now apply clearedGrid_wf. }
  eexists. split; [exact Hs|].
  eapply spawn_Inv; [| | | | | | |exact Hs]; rewrite ?afterClear_grid, ?afterClear_next.
  - now apply clearedGrid_wf.
  - apply clearedGrid_noFull.
  - exact Hnext.
  - unfold afterClear. cbn zeta. simpl grid.
    destruct (countFull g =? 0); simpl; [lia|].
    destruct (lines s + countFull g >=? level s * 10); lia.
  - unfold afterClear. cbn zeta. simpl grid.
    destruct (countFull g =? 0); simpl; [exact Hspd|].
    destruct (lines s + countFull g >=? level s * 10); [|exact Hspd].
    rewrite Hspd, speedUp_iter. f_equal. lia.
  - unfold afterClear. cbn zeta. simpl grid.
    destruct (Z.eqb_spec (countFull g) 0); simpl; [eauto|].
    rewrite Hv, points_in_table by lia. simpl. eauto.
  - unfold afterClear. cbn zeta. simpl grid.
    destruct (Z.eqb_spec (countFull g) 0); simpl; [lia|].
    destruct (Z.geb_spec (lines s + countFull g) (level s * 10)); lia.
Qed.

Lemma Inv_set_current s p :
  Inv s -> pieceOK p -> (over s = false -> collides (grid s) p = Ok false) ->
  Inv (set_current (Some p) s).
Proof.
  intros [Hwf Hnf _ Hnext Hlvl Hspd Hsc Hln] Hp Hfree.
  constructor; simpl; try assumption. exists p. auto.
Qed.

Lemma Inv_set_dropAccum v s : Inv s -> Inv (set_dropAccum v s).
Proof. intros [? ? ? ? ? ? ? ?]. constructor; assumption. Qed.

Lemma Inv_set_lastTime v s : Inv s -> Inv (set_lastTime v s).
Proof. intros [? ? ? ? ? ? ? ?]. constructor; assumption. Qed.

Lemma collides_total g p : wfGrid g -> exists b, collides g p = Ok b.
Proof. intros Hwf. rewrite collides_wf by assumption. eauto. Qed.

(** ** Moving and turning *)

Lemma move_run dx dy s p :
  wfGrid (grid s) -> current s = Some p ->
  exists b, collides (grid s) (down dy (aside dx p)) = Ok b
    /\ move dx dy s = Ok (if b then s else set_current (Some (down dy (aside dx p))) s).
Proof.
  intros Hwf Hcur. unfold move. rewrite Hcur, clonePiece_id.
  fold (aside dx p). change (y p) with (y (aside dx p)). fold (down dy (aside dx p)).
  destruct (collides_total (grid s) (down dy (aside dx p)) Hwf) as [b Hb].
  exists b. rewrite Hb. split; reflexivity.
Qed.

Lemma move_Inv dx dy s :
  Inv s -> 0 <= dy -> exists s', move dx dy s = Ok s' /\ Inv s'.
Proof.
  intros HI Hdy. pose proof HI as [Hwf _ (p & Hcur & Hp & Hfree) _ _ _ _ _].
  destruct (move_run dx dy s p Hwf Hcur) as (b & Hb & ->).
  ok_result. destruct b; [exact HI|].
  apply Inv_set_current; auto. apply down_ok; [lia|]. now apply aside_ok.
Qed.

(** The kick search: either the list splits at the first offset whose
    placement does not collide, or every offset collides. *)
Lemma kickLoop_spec g p ks :
  wfGrid g ->
  (exists l1 k l2, ks = l1 ++ k :: l2
     /\ (forall j, j ∈ l1 -> collides g (aside j p) = Ok true)
     /\ collides g (aside k p) = Ok false
     /\ kickLoop g p ks = Ok (Some (aside k p)))
  \/ ((forall j, j ∈ ks -> collides g (aside j p) = Ok true)
      /\ kickLoop g p ks = Ok None).
Proof.
  intros Hwf. induction ks as [|k rest IH].
  - right. split; [|reflexivity]. intros j Hj. inversion Hj.
  - cbn [kickLoop]. rewrite clonePiece_id. fold (aside k p).
    destruct (collides_total g (aside k p) Hwf) as [[|] Hb]; rewrite Hb, bind_Ok.
    + destruct IH as [(l1 & k' & l2 & -> & Hl1 & Hk' & Hrun)|[Hall Hrun]].
      * left. exists (k :: l1), k', l2. split; [reflexivity|]. split; [|auto].
        intros j Hj. inversion Hj; subst; auto.
      * right. split; [|exact Hrun]. intros j Hj. inversion Hj; subst; auto.
    + left. exists [], k, rest. split; [reflexivity|]. split; [|auto].
      intros j Hj. inversion Hj.
Qed.

Lemma rotateCurrent_Inv s :
  Inv s -> exists s', rotateCurrent s = Ok s' /\ Inv s'.
Proof.
  intros HI. pose proof HI as [Hwf _ (p & Hcur & Hp & Hfree) _ _ _ _ _].
  unfold rotateCurrent. rewrite Hcur.
  destruct (collides_total (grid s) (rotate p) Hwf) as [[|] Hb]; rewrite Hb, bind_Ok;
    cbn [negb].
  - destruct (kickLoop_spec (grid s) (rotate p) kicks Hwf)
      as [(l1 & k & l2 & _ & _ & Hk & ->)|[_ ->]]; rewrite bind_Ok.
    + ok_result. apply Inv_set_current; auto.
      apply aside_ok. now apply rotate_ok.
    + ok_result. exact HI.
  - ok_result. apply Inv_set_current; auto.
    now apply rotate_ok.
Qed.

Lemma hardDrop_Inv fuel r s :
  Inv s -> over s = false -> (41 <= fuel)%nat ->
  exists s', hardDrop fuel r s = Ok s' /\ Inv s'.
Proof.
  intros HI Hov Hfuel. pose proof HI as [Hwf _ (p & Hcur & Hp & Hfree) _ _ _ _ _].
  destruct (pieceOK_first p Hp) as (c0 & rest & Hs & Hc0).
  destruct (dropLoop_spec fuel (grid s) p false c0 rest Hwf Hs)
    as (k & Hk & Hpath & Hstop & Hrun).
  { destruct Hp as (_ & _ & Hy). unfold ROWS. lia. }
  unfold hardDrop. rewrite Hcur, Hrun, bind_Ok. cbn [orb].
  destruct (Z.ltb_spec 0 k) as [Hpos|Hzero].
  - apply tickLock_Inv; [|exact Hov|exact Hfuel].
    apply Inv_set_current; [exact HI|now apply down_ok|].
    intros _. apply Hpath. lia.
  - ok_result.
    replace k with 0 by lia. rewrite down_0.
    apply Inv_set_current; auto.
Qed.

Lemma update_Inv fuel r time s :
  Inv s -> (41 <= fuel)%nat -> exists s', update fuel r time s = Ok s' /\ Inv s'.
Proof.
  intros HI Hfuel. unfold update.
  destruct (paused s || over s) eqn:Hgate; [eauto|].
  apply orb_false_iff in Hgate as [_ Hov].
  pose proof HI as [Hwf Hnf (p & Hcur & Hp & Hfree) Hnext Hlvl Hspd Hsc Hln].
  cbn zeta. cbn [dropAccum set_dropAccum set_lastTime dropInterval].
  destruct (_ >? _).
  2:{ ok_result.
      now apply Inv_set_dropAccum, Inv_set_lastTime. }
  cbn [current set_dropAccum set_lastTime grid]. rewrite Hcur, clonePiece_id.
  fold (down 1 p).
  destruct (collides_total (grid s) (down 1 p) Hwf) as [[|] Hb]; rewrite Hb, bind_Ok.
  - apply tickLock_Inv; auto.
    now apply Inv_set_dropAccum, Inv_set_dropAccum, Inv_set_lastTime.
  - ok_result. apply Inv_set_current.
    + now apply Inv_set_dropAccum, Inv_set_dropAccum, Inv_set_lastTime.
    + apply down_ok; [lia|exact Hp].
    + intros _. exact Hb.
Qed.

Lemma togglePause_Inv t s : Inv s -> Inv (togglePause t s).
Proof.
  intros HI. unfold togglePause. destruct (over s); [exact HI|].
  destruct HI as [Hwf Hnf Hcur Hnext Hlvl Hspd Hsc Hln].
  cbn [paused set_paused]. destruct (negb (negb (paused s)));
    constructor; simpl; assumption.
Qed.

Lemma createGrid_wf : wfGrid (createGrid COLS ROWS).
Proof. split; [reflexivity|]. apply Forall_replicate. reflexivity. Qed.

Lemma createGrid_noFull : noFullRow (createGrid COLS ROWS).
Proof. apply Forall_replicate. reflexivity. Qed.

Lemma collides_createGrid t :
  collides (createGrid COLS ROWS) (pieceFromType t) = Ok false.
Proof. destruct t; vm_compute; reflexivity. Qed.

(** [reset] overwrites every variable: its result does not depend on
    the state it starts from. *)
Lemma reset_run r1 r2 t s :
  reset r1 r2 t s
  = Ok (mkState (createGrid COLS ROWS) (Num 0) 0 1 (Some (pieceFromType r1))
          (pieceFromType r2) 800 t 0 false false None false).
Proof.
  unfold reset, spawn. cbn zeta.
  cbn [grid next set_grid set_score set_lines set_level set_dropInterval
       set_over set_paused set_holdType set_holdUsed set_current set_next
       randomPiece].
  rewrite pieceFromType_anchor, collides_createGrid, bind_Ok.
  reflexivity.
Qed.

Lemma reset_Inv r1 r2 t s : exists s', reset r1 r2 t s = Ok s' /\ Inv s'.
Proof.
  rewrite reset_run. ok_result.
  constructor; cbn [grid score lines level current next dropInterval over].
  - apply createGrid_wf.
  - apply createGrid_noFull.
  - exists (pieceFromType r1). split; [reflexivity|].
    split; [apply pieceFromType_ok|]. intros _. apply collides_createGrid.
  - now exists r2.
  - lia.
  - reflexivity.
  - now exists 0.
  - lia.
Qed.

Lemma doHold_Inv r s : Inv s -> exists s', doHold r s = Ok s' /\ Inv s'.
Proof.
  intros HI. unfold doHold.
  destruct (paused s || over s || holdUsed s || isNull (current s)) eqn:Hgate; [eauto|].
  pose proof HI as [Hwf Hnf (p & Hcur & Hp & Hfree) Hnext Hlvl Hspd Hsc Hln].
  rewrite Hcur. cbn zeta.
  assert (forall s1, Inv s1 -> Inv (set_holdUsed true s1)) as Hused.
  { intros s1 [? ? ? ? ? ? ? ?]. constructor; assumption. }
  destruct (holdType s) as [swapType|].
  - cbn [grid set_current set_holdType].
    destruct (collides_total (grid s) (pieceFromType swapType) Hwf) as [b Hb].
    rewrite Hb, !bind_Ok. ok_result. apply Hused.
    destruct b; constructor; simpl; try assumption;
      exists (pieceFromType swapType);
      (split; [reflexivity|]; split; [apply pieceFromType_ok|]).
    + discriminate.
    + intros _. exact Hb.
  - destruct (spawn_run r (set_holdType (Some (type p)) s) Hwf) as (b & Hb & Hs).
    rewrite Hs, bind_Ok. ok_result. apply Hused.
    eapply spawn_Inv; [| | | | | | |exact Hs]; assumption.
Qed.

(** ** Fuel *)

(** A result reached with some fuel is reached with any larger fuel. *)
Lemma clearLoop_mono fuel : forall fuel' g yy c r,
  clearLoop fuel g yy c = Ok r -> (fuel <= fuel')%nat ->
  clearLoop fuel' g yy c = Ok r.
Proof.
  induction fuel as [|fuel IH]; intros fuel' g yy c r Hrun Hle; [discriminate|].
  destruct fuel' as [|fuel']; [lia|]. cbn [clearLoop] in *.
  destruct (yy >=? 0); [|exact Hrun].
  destruct (g !! Z.to_nat yy) as [row|]; [|discriminate].
  destruct (fullRow row); (eapply IH; [exact Hrun|lia]).
Qed.

Lemma dropLoop_mono fuel : forall fuel' g cur moved r,
  dropLoop fuel g cur moved = Ok r -> (fuel <= fuel')%nat ->
  dropLoop fuel' g cur moved = Ok r.
Proof.
  induction fuel as [|fuel IH]; intros fuel' g cur moved r Hrun Hle; [discriminate|].
  destruct fuel' as [|fuel']; [lia|]. cbn [dropLoop] in *.
  destruct (collides g _) as [[|]| |]; cbn in *; try discriminate.
  - exact Hrun.
  - eapply IH; [exact Hrun|lia].
Qed.

Lemma clearLines_mono fuel fuel' s r :
  clearLines fuel s = Ok r -> (fuel <= fuel')%nat -> clearLines fuel' s = Ok r.
Proof.
  unfold clearLines. intros Hrun Hle.
  apply bind_Ok_inv in Hrun as ([g c] & Hloop & Hrest).
  now rewrite (clearLoop_mono _ _ _ _ _ _ Hloop Hle).
Qed.

Lemma tickLock_mono fuel fuel' r s s' :
  tickLock fuel r s = Ok s' -> (fuel <= fuel')%nat -> tickLock fuel' r s = Ok s'.
Proof.
  unfold tickLock. intros Hrun Hle.
  destruct (current s) as [cur|]; [|discriminate].
  apply bind_Ok_inv in Hrun as (g & -> & Hrun). rewrite bind_Ok.
  apply bind_Ok_inv in Hrun as ([v s1] & Hclear & Hrest).
  now rewrite (clearLines_mono _ _ _ _ Hclear Hle).
Qed.

Lemma hardDrop_mono fuel fuel' r s s' :
  hardDrop fuel r s = Ok s' -> (fuel <= fuel')%nat -> hardDrop fuel' r s = Ok s'.
Proof.
  unfold hardDrop. intros Hrun Hle.
  destruct (current s) as [cur|]; [|exact Hrun].
  apply bind_Ok_inv in Hrun as ([cur' moved] & Hloop & Hrest).
  rewrite (dropLoop_mono _ _ _ _ _ _ Hloop Hle), bind_Ok.
  destruct moved; [|exact Hrest]. eapply tickLock_mono; eauto.
Qed.

Lemma update_mono fuel fuel' r time s s' :
  update fuel r time s = Ok s' -> (fuel <= fuel')%nat ->
  update fuel' r time s = Ok s'.
Proof.
  unfold update. intros Hrun Hle.
  destruct (paused s || over s); [exact Hrun|]. cbn zeta in *.
  destruct (_ >? _); [|exact Hrun].
  destruct (current _) as [cur|]; [|discriminate].
  destruct (collides _ _) as [[|]| |]; cbn in *; try discriminate; [|exact Hrun].
  eapply tickLock_mono; eauto.
Qed.

Lemma handle_mono fuel fuel' e ev s s' :
  handle fuel e ev s = Ok s' -> (fuel <= fuel')%nat ->
  handle fuel' e ev s = Ok s'.
Proof.
  intros Hrun Hle. destruct ev as [k|b|time|]; cbn [handle] in *.
  - unfold onKeyDown in *. destruct (over s); [exact Hrun|].
    destruct k; try exact Hrun.
    destruct (paused s); [exact Hrun|]. eapply hardDrop_mono; eauto.
  - unfold onPress in *. destruct b; try exact Hrun.
    destruct (negb (paused s) && negb (over s)); [|exact Hrun].
    eapply hardDrop_mono; eauto.
  - eapply update_mono; eauto.
  - exact Hrun.
Qed.

(** ** Every reachable state satisfies the invariant *)

Lemma Ok_Inv s : Inv s -> exists s', Ok s = Ok s' /\ Inv s'.
Proof. eauto. Qed.

Lemma handle_Inv fuel e ev s :
  Inv s -> (41 <= fuel)%nat -> exists s', handle fuel e ev s = Ok s' /\ Inv s'.
Proof.
  intros HI Hfuel. destruct ev as [k|b|time|]; cbn [handle].
  - unfold onKeyDown. destruct (over s) eqn:Hov; [now apply Ok_Inv|].
    destruct k; try (destruct (paused s); [now apply Ok_Inv|]);
      try (now apply Ok_Inv); try (now apply Ok_Inv, togglePause_Inv).
    + apply move_Inv; [exact HI|lia].
    + apply move_Inv; [exact HI|lia].
    + apply move_Inv; [exact HI|lia].
    + now apply rotateCurrent_Inv.
    + now apply hardDrop_Inv.
    + now apply doHold_Inv.
    + now apply doHold_Inv.
    + now apply doHold_Inv.
  - unfold onPress.
    destruct b;
      try (destruct (negb (paused s) && negb (over s)) eqn:Hgate;
           [|now apply Ok_Inv]);
      try (apply andb_true_iff in Hgate as [_ Hov]; apply negb_true_iff in Hov).
    + apply move_Inv; [exact HI|lia].
    + apply move_Inv; [exact HI|lia].
    + apply move_Inv; [exact HI|lia].
    + now apply rotateCurrent_Inv.
    + now apply hardDrop_Inv.
    + now apply doHold_Inv.
    + destruct (negb (over s)); [now apply Ok_Inv, togglePause_Inv|now apply Ok_Inv].
  - now apply update_Inv.
  - apply reset_Inv.
Qed.

Lemma reachable_Inv s : reachable s -> Inv s.
Proof.
  induction 1 as [r0 e s Hboot|fuel e ev s s' _ IH Hstep].
  - unfold boot in Hboot. destruct (reset_Inv (draw1 e) (draw2 e) (now e) (declared r0))
      as (s1 & Hs1 & HI). congruence.
  - destruct (handle_Inv (Nat.max fuel 41) e ev s IH) as (s1 & Hs1 & HI); [lia|].
    rewrite (handle_mono fuel (Nat.max fuel 41) e ev s s' Hstep) in Hs1 by lia.
    congruence.
Qed.

(** From a reachable state no handler throws or runs out of fuel. *)
Lemma reachable_step fuel e ev s :
  reachable s -> (41 <= fuel)%nat ->
  exists s', handle fuel e ev s = Ok s' /\ reachable s'.
Proof.
  intros Hr Hfuel.
  destruct (handle_Inv fuel e ev s (reachable_Inv s Hr) Hfuel) as (s' & Hs' & _).
  exists s'. split; [exact Hs'|]. eapply reach_step; eauto.
Qed.

(** ** Rotation (C7) *)

(** C7. [rotate] sends every cell [(x, y)] of the shape to [(2 - y, x)]
    and leaves the anchor alone. [rotateCurrent] takes the turned piece
    if it does not collide; otherwise it tries the horizontal offsets
    -1, +1, -2, +2 in this order and takes the first placement that does
    not collide; if all four collide the session state, and with it
    the active piece, stays exactly as it was. Taking a piece makes it
    the active piece and changes no other variable of the session; a
    placement at offset [k] is the turned piece with [k] added to the
    column of its anchor. *)
Theorem rotateCurrent_kicks s p :
  wfGrid (grid s) -> current s = Some p ->
  shape (rotate p) = map (fun c => mkPt (2 - cy c) (cx c)) (shape p)
  /\ x (rotate p) = x p /\ y (rotate p) = y p
  /\ (forall k, x (aside k (rotate p)) = x p + k
                /\ y (aside k (rotate p)) = y p
                /\ shape (aside k (rotate p)) = shape (rotate p))
  /\ exists s', rotateCurrent s = Ok s'
      /\ ((collides (grid s) (rotate p) = Ok false
           /\ onlyCurrent (rotate p) s s')
          \/ (collides (grid s) (rotate p) = Ok true
              /\ exists tried k later,
                   [-1; 1; -2; 2] = tried ++ k :: later
                   /\ (forall j, j ∈ tried ->
                         collides (grid s) (aside j (rotate p)) = Ok true)
                   /\ collides (grid s) (aside k (rotate p)) = Ok false
                   /\ onlyCurrent (aside k (rotate p)) s s')
          \/ (collides (grid s) (rotate p) = Ok true
              /\ (forall j, j ∈ [-1; 1; -2; 2] ->
                    collides (grid s) (aside j (rotate p)) = Ok true)
              /\ s' = s /\ current s' = Some p)).
Proof.
  intros Hwf Hcur.
  split; [unfold rotate; now rewrite clonePiece_id|].
  split; [unfold rotate; now rewrite clonePiece_id|].
  split; [unfold rotate; now rewrite clonePiece_id|].
  split; [intros k; unfold rotate; rewrite clonePiece_id; repeat split|].
  unfold rotateCurrent. rewrite Hcur.
  destruct (collides_total (grid s) (rotate p) Hwf) as [[|] Hb]; rewrite Hb, bind_Ok;
    cbn [negb].
  - destruct (kickLoop_spec (grid s) (rotate p) kicks Hwf)
      as [(l1 & k & l2 & Hsplit & Hl1 & Hk & ->)|[Hall ->]]; rewrite bind_Ok.
    + eexists. split; [reflexivity|]. right. left. split; [reflexivity|].
      exists l1, k, l2. split; [exact Hsplit|]. split; [exact Hl1|].
      split; [exact Hk|]. repeat split.
    + exists s. split; [reflexivity|]. right. right. auto.
  - eexists. split; [reflexivity|]. left. split; [reflexivity|]. repeat split.
Qed.

Lemma rotateCurrent_kicks_witness :
  shape (rotate wallI) = [mkPt 2 1; mkPt 1 1; mkPt 0 1; mkPt (-1) 1]
  /\ collides (createGrid COLS ROWS) (rotate wallI) = Ok true
  /\ exists s' q,
       rotateCurrent (emptyState wallI) = Ok s' /\ current s' = Some q
       /\ x q = 7 /\ y q = 1
       /\ shape q = [mkPt 2 1; mkPt 1 1; mkPt 0 1; mkPt (-1) 1]
       /\ grid s' = createGrid COLS ROWS.
Proof.
  destruct (rotateCurrent_kicks (emptyState wallI) wallI createGrid_wf eq_refl)
    as (Hshape & _ & _ & Hat & s' & Hrun
        & [[Hfree _]|[(Hhit & tried & k & later & Hsplit & Htried & Hk & Hnew)|[_ [Hall _]]]]).
  - vm_compute in Hfree. discriminate Hfree.
  - split; [exact Hshape|]. split; [exact Hhit|].
    destruct Hnew as (Hcur & Hgrid & _).
    destruct (Hat k) as (Hx & Hy & Hsh).
    exists s', (aside k (rotate wallI)). split; [exact Hrun|]. split; [exact Hcur|].
    destruct tried as [|a tried].
    + injection Hsplit as <- _.
      split; [exact Hx|]. split; [exact Hy|].
      split; [rewrite Hsh; exact Hshape|exact Hgrid].
    + injection Hsplit as <- _.
      specialize (Htried (-1)). vm_compute in Htried.
      discriminate Htried. left.
  - specialize (Hall (-1)). vm_compute in Hall.
    discriminate Hall. left.
Defined.

(** ** Hold (C8) *)

(** C8. Once [holdUsed] is set for the active piece, a further [doHold]
    changes nothing: the whole session state is returned as it was. *)
Theorem doHold_used_noop r s :
  holdUsed s = true -> doHold r s = Ok s.
Proof.
  intros Hused. unfold doHold. rewrite Hused.
  now rewrite orb_true_r.
Qed.

Lemma doHold_used_noop_witness :
  doHold Tetro.I (set_holdUsed true (emptyState (pieceFromType Tetro.T)))
  = Ok (set_holdUsed true (emptyState (pieceFromType Tetro.T))).
Proof. apply doHold_used_noop. reflexivity. Defined.

(** Holding twice in a row: whatever the first call did, the second one
    does nothing. *)
Lemma doHold_twice r1 r2 s s1 :
  doHold r1 s = Ok s1 -> doHold r2 s1 = Ok s1.
Proof.
  unfold doHold at 1.
  destruct (paused s || over s || holdUsed s || isNull (current s)) eqn:Hgate.
  - intros [= <-]. unfold doHold. now rewrite Hgate.
  - destruct (current s) as [cur|]; [|discriminate].
    intros Hrun. apply bind_Ok_inv in Hrun as (s2 & _ & [= <-]).
    unfold doHold. cbn [holdUsed set_holdUsed]. now rewrite orb_true_r.
Qed.

(** ** Line clearing and scoring (C1, C2, C9) *)

(** C1, as stated, fails: on [nineLines] the call clears one row and
    changes all four of [score], [lines], [level] and [dropInterval]. *)
Lemma clearLines_changes_counters :
  exists s', clearLines 41 nineLines = Ok (Undefined, s')
    /\ (score nineLines = Num 0 /\ score s' = Num 40)
    /\ (lines nineLines = 9 /\ lines s' = 10)
    /\ (level nineLines = 1 /\ level s' = 2)
    /\ (dropInterval nineLines = 800 /\ dropInterval s' = 680).
Proof. eexists. split; [vm_compute; reflexivity|]. repeat split. Qed.

(** C1, amended. [clearLines] does the scoring itself. With [n] full
    rows in the grid it removes them; if [n = 0] the session is left as
    it was; if [n > 0] it adds [table[n] * level] to [score] and [n] to
    [lines], and when the new [lines] reaches [level * 10] it increments
    [level] and replaces [dropInterval] by
    [max(80, floor(dropInterval * 0.85))]. The active and next piece,
    the hold slot, the flags and the clock are never touched. The
    counters are taken in the range in which the script's doubles
    compute exactly ([exactCounters], [exactSpeed]). *)
Theorem clearLines_effect fuel s :
  wfGrid (grid s) -> exactCounters s -> exactSpeed s -> (41 <= fuel)%nat ->
  exists s', clearLines fuel s = Ok (Undefined, s')
    /\ grid s' = clearedGrid (grid s)
    /\ (current s' = current s /\ next s' = next s /\ lastTime s' = lastTime s
        /\ dropAccum s' = dropAccum s /\ paused s' = paused s /\ over s' = over s
        /\ holdType s' = holdType s /\ holdUsed s' = holdUsed s)
    /\ (countFull (grid s) = 0 -> s' = s)
    /\ (0 < countFull (grid s) ->
        score s' = jsadd (score s) (points (countFull (grid s)) (level s))
        /\ lines s' = lines s + countFull (grid s)
        /\ level s' = (if lines s + countFull (grid s) >=? level s * 10
                       then level s + 1 else level s)
        /\ dropInterval s' = (if lines s + countFull (grid s) >=? level s * 10
                              then speedUp (dropInterval s) else dropInterval s)).
Proof.
  intros [Hlen Hrows] _ _ Hfuel. exists (afterClear s).
  split; [now apply clearLines_run|]. split; [apply afterClear_grid|].
  unfold afterClear. cbn zeta.
  destruct (Z.eqb_spec (countFull (grid s)) 0) as [Hz|Hnz].
  - split; [repeat split|]. split; [|lia].
    intros _. rewrite clearedGrid_id by exact Hz. now destruct s.
  - split; [repeat split|]. split; [contradiction|].
    intros _. repeat split.
Qed.

Lemma clearLines_effect_witness :
  exists s', clearLines 41 nineLines = Ok (Undefined, s')
    /\ score s' = Num 40 /\ lines s' = 10 /\ level s' = 2 /\ dropInterval s' = 680
    /\ current s' = current nineLines /\ holdType s' = holdType nineLines.
Proof.
  assert (wfGrid (grid nineLines)) as Hwf.
  { split; [reflexivity|]. repeat constructor. }
  assert (exactCounters nineLines) as Hex.
  { unfold exactCounters, maxExact, ROWS. cbn. lia. }
  assert (exactSpeed nineLines) as Hsp.
  { unfold exactSpeed. cbn. lia. }
  destruct (clearLines_effect 41 nineLines Hwf Hex Hsp (le_n 41))
    as (s' & Hrun & _ & (Hc & _ & _ & _ & _ & _ & Hh & _) & _ & Hpos).
  destruct Hpos as (Hsc & Hl & Hlv & Hd); [reflexivity|].
  exists s'. split; [exact Hrun|].
  repeat split; [rewrite Hsc|rewrite Hl|rewrite Hlv|rewrite Hd|exact Hc|exact Hh];
    reflexivity.
Defined.

(** C2, as stated, fails: the call on [nineLines] clears one row, yet it
    evaluates to [undefined], not to the number 1. *)
Lemma clearLines_returns_undefined :
  countFull (grid nineLines) = 1
  /\ exists s', clearLines 41 nineLines = Ok (Undefined, s')
       /\ lines s' = lines nineLines + 1
       /\ Undefined <> Number 1.
Proof.
  split; [reflexivity|]. eexists. split; [vm_compute; reflexivity|].
  split; [reflexivity|discriminate].
Qed.

(** C2, amended. [clearLines] evaluates to [undefined]; the number of
    rows it clears is what it adds to [lines]. Where the engine invokes
    it, in [tickLock] right after merging the active piece of a session
    that satisfies the invariant and is not over, that number is the
    number of full rows of the merged grid and lies between 0 and 4.
    Every reachable session satisfies the invariant ([reachable_Inv]),
    and so does the session in which [hardDrop] has moved the piece
    down before it calls [tickLock] ([hardDrop_Inv]). *)
Theorem clearLines_count fuel s p :
  Inv s -> over s = false -> current s = Some p -> (41 <= fuel)%nat ->
  exists g s', merge (grid s) p = Ok g
    /\ clearLines fuel (set_grid g s) = Ok (Undefined, s')
    /\ grid s' = clearedGrid g
    /\ lines s' = lines s + countFull g
    /\ 0 <= countFull g <= 4.
Proof.
  intros [Hwf Hnf (q & Hq & (Hlen & _) & Hfree) _ _ _ _ _] Hov Hcur Hfuel.
  assert (q = p) as -> by congruence.
  destruct (tickLock_run fuel Tetro.I s p) as (g & Hm & Hwfg & Hcount & _);
    try assumption; [lia|auto|].
  exists g, (afterClear (set_grid g s)).
  split; [exact Hm|]. split; [apply clearLines_run; [apply Hwfg|exact Hfuel]|].
  split; [apply afterClear_grid|]. split; [|exact Hcount].
  unfold afterClear. cbn zeta. simpl grid.
  destruct (Z.eqb_spec (countFull g) 0) as [->|_]; simpl; lia.
Qed.

Lemma almost_Inv : Inv almost.
Proof.
  constructor; simpl.
  - split; [reflexivity|]. repeat constructor.
  - repeat constructor.
  - exists restingO. split; [reflexivity|]. split.
    + split; [reflexivity|]. split; [|simpl; lia].
      repeat constructor; simpl; lia.
    + intros _. reflexivity.
  - now exists Tetro.L.
  - lia.
  - reflexivity.
  - now exists 100.
  - lia.
Qed.

Lemma clearLines_count_witness :
  exists g s', merge (grid almost) restingO = Ok g
    /\ clearLines 41 (set_grid g almost) = Ok (Undefined, s')
    /\ grid s' = clearedGrid g
    /\ lines s' = lines almost + countFull g
    /\ 0 <= countFull g <= 4.
Proof.
  apply (clearLines_count 41 almost restingO almost_Inv eq_refl eq_refl).
  repeat constructor.
Defined.

Lemma merge_length g p g' : merge g p = Ok g' -> length g' = length g.
Proof.
  unfold merge. generalize (shape p) as cells. intros cells. revert g.
  induction cells as [|c rest IH]; intros g Hm; cbn [mergeCells] in Hm.
  - now injection Hm as <-.
  - destruct (y p + cy c >=? 0); [|now apply IH].
    apply bind_Ok_inv in Hm as (g1 & Hset & Hrest).
    unfold setCell in Hset. destruct (g !! _) as [row|]; [|discriminate].
    injection Hset as <-. rewrite (IH _ Hrest). apply length_insert.
Qed.

(** C9. A lock that clears [n] rows, [n] from 1 to 4, in a session at
    level [L] adds exactly [[0, 40, 100, 300, 1200][n] * L] to the score,
    [L] being the level before the clear (a level-up caused by the same
    clear comes after the points are added). Score and level are taken
    in the range in which the script's doubles compute exactly
    ([exactCounters]). *)
Theorem lock_score fuel r s p g n :
  wfGrid (grid s) -> exactCounters s ->
  current s = Some p -> merge (grid s) p = Ok g ->
  countFull g = n -> 1 <= n <= 4 -> (41 <= fuel)%nat ->
  exists s', tickLock fuel r s = Ok s'
    /\ score s' = jsadd (score s) (Num (nth (Z.to_nat n) [0; 40; 100; 300; 1200] 0 * level s))
    /\ lines s' = lines s + n.
Proof.
  intros Hwf _ Hcur Hm Hn Hrange Hfuel.
  pose proof (merge_length _ _ _ Hm) as Hlen.
  unfold tickLock. rewrite Hcur, Hm, bind_Ok.
  rewrite clearLines_run by (try assumption; simpl; rewrite Hlen; apply Hwf).
  rewrite bind_Ok.
  assert (length (grid (afterClear (set_grid g s))) = Z.to_nat ROWS) as Hlen'.
  { rewrite afterClear_grid, clearedGrid_length. simpl. rewrite Hlen. apply Hwf. }
  unfold spawn. cbn [grid set_holdUsed set_current set_next].
  set (s1 := afterClear (set_grid g s)) in *.
  set (cur := set_rot 0 (set_y (-2) (set_x 3 (next s1)))).
  assert (exists b, collides (grid s1) cur = Ok b) as [b Hb].
  { unfold collides. generalize (shape cur) as cells.
    induction cells as [|c rest [b IH]]; [now exists false|].
    cbn [collidesCells]. destruct (y cur + cy c <? 0) eqn:Hy; [eauto|].
    destruct (_ || _ || (y cur + cy c >=? ROWS)) eqn:Hout; [eauto|].
    apply orb_false_iff in Hout as [_ Hrow].
    unfold occupied.
    destruct (lookup_lt_is_Some_2 (grid s1) (Z.to_nat (y cur + cy c))) as [row ->].
    { rewrite Hlen'. apply Z.ltb_ge in Hy. rewrite Z.geb_leb in Hrow.
      apply Z.leb_gt in Hrow. lia. }
    rewrite bind_Ok. destruct (match row !! _ with Some _ => _ | None => _ end); eauto. }
  rewrite Hb, bind_Ok. ok_result.
  assert (score s1 = jsadd (score s) (Num (nth (Z.to_nat n) [0; 40; 100; 300; 1200] 0 * level s))
          /\ lines s1 = lines s + n) as [Hsc Hl].
  { unfold s1, afterClear. cbn zeta. simpl grid. rewrite Hn.
    destruct (Z.eqb_spec n 0) as [->|_]; [lia|]. simpl.
    now rewrite points_in_table by lia. }
  destruct b; simpl; auto.
Qed.

Lemma lock_score_witness :
  exists s', tickLock 41 Tetro.I almost = Ok s'
    /\ level almost = 2 /\ level s' = 3
    /\ score s' = Num (100 + 40 * 2) /\ lines s' = 19 + 1.
Proof.
  destruct (lock_score 41 Tetro.I almost restingO
              (replicate 18 (emptyRow COLS)
               ++ [replicate 4 Null
                   ++ [Color "#f1e05a"; Color "#f1e05a"] ++ replicate 4 Null;
                   replicate 4 (Color "#00ffff")
                   ++ [Color "#f1e05a"; Color "#f1e05a"]
                   ++ replicate 4 (Color "#00ffff")])
              1)
    as (s' & Hrun & Hsc & Hl).
  - split; [reflexivity|]. repeat constructor.
  - unfold exactCounters, maxExact, ROWS. cbn. lia.
  - reflexivity.
  - reflexivity.
  - reflexivity.
  - lia.
  - lia.
  - exists s'. split; [exact Hrun|]. split; [reflexivity|].
    split; [|split; [rewrite Hsc|rewrite Hl]; reflexivity].
    vm_compute in Hrun. now injection Hrun as <-.
Defined.

(** ** Spawning and the end of the session (C3) *)

Lemma run_reachable fuel evs : forall s s',
  reachable s -> run fuel evs s = Ok s' -> reachable s'.
Proof.
  induction evs as [|[e ev] rest IH]; intros s s' Hr Hrun; cbn [run] in Hrun.
  - now injection Hrun as <-.
  - apply bind_Ok_inv in Hrun as (s1 & Hstep & Hrest).
    eapply IH; [|exact Hrest]. eapply reach_step; eauto.
Qed.

Lemma boot_run_reachable fuel r0 e evs s :
  (s0 ← boot r0 e; run fuel evs s0) = Ok s -> reachable s.
Proof.
  intros Hrun. apply bind_Ok_inv in Hrun as (s0 & Hboot & Hrest).
  eapply run_reachable; [|exact Hrest]. eapply reach_boot; eauto.
Qed.

Lemma tower_run : (s ← boot Tetro.O envO; run 41 towerEvents s) = Ok tower.
Proof. vm_compute. reflexivity. Qed.

Lemma tower_reachable : reachable tower.
Proof. exact (boot_run_reachable 41 Tetro.O envO towerEvents tower tower_run). Qed.

(** C3, as stated, fails: [tower] is reachable, its active piece is the
    O that the last lock spawned, one row further down that piece
    collides, and the session is not over. The next gravity step locks
    the piece where it is, above the board, and spawns another one;
    the session is still not over. *)
Lemma stuck_spawn_not_over :
  reachable tower
  /\ current tower = Some (pieceFromType Tetro.O)
  /\ collides (grid tower) (down 1 (pieceFromType Tetro.O)) = Ok true
  /\ over tower = false
  /\ exists s', update 41 Tetro.O 1000 tower = Ok s'
       /\ grid s' = grid tower /\ over s' = false.
Proof.
  split; [exact tower_reachable|]. split; [reflexivity|].
  split; [vm_compute; reflexivity|]. split; [reflexivity|].
  eexists. split; [vm_compute; reflexivity|]. split; reflexivity.
Qed.

(** C3, amended. [spawn] puts the next piece at the anchor (3, -2) and
    ends the session exactly if the piece collides there, on its own
    cells; that it cannot go one row down plays no part. *)
Theorem spawn_over_iff r s :
  wfGrid (grid s) ->
  exists b s',
    collides (grid s) (set_rot 0 (set_y (-2) (set_x 3 (next s)))) = Ok b
    /\ spawn r s = Ok s'
    /\ current s' = Some (set_rot 0 (set_y (-2) (set_x 3 (next s))))
    /\ over s' = over s || b.
Proof.
  intros Hwf. destruct (spawn_run r s Hwf) as (b & Hb & Hs).
  exists b. eexists. split; [exact Hb|]. split; [exact Hs|]. split; reflexivity.
Qed.

Lemma spawn_over_iff_witness :
  over towerS = false
  /\ exists s', spawn Tetro.O towerS = Ok s'
       /\ current s' = Some (pieceFromType Tetro.S)
       /\ over s' = true.
Proof.
  split; [reflexivity|].
  destruct (spawn_over_iff Tetro.O towerS) as (b & s' & Hb & Hrun & Hcur & Hov).
  { split; [reflexivity|]. repeat constructor. }
  vm_compute in Hb. injection Hb as <-.
  exists s'. split; [exact Hrun|]. split; [exact Hcur|].
  rewrite Hov. reflexivity.
Defined.

(** ** Hard drop (C4) *)

Lemma onFloor_run : (s ← boot Tetro.O envO; run 41 floorEvents s) = Ok onFloor.
Proof. vm_compute. reflexivity. Qed.

Lemma onFloor_reachable : reachable onFloor.
Proof. exact (boot_run_reachable 41 Tetro.O envO floorEvents onFloor onFloor_run). Qed.

(** C4, as stated, fails: in [onFloor] the active piece rests on the
    floor and cannot go down one row. [hardDrop] returns the state as it
    is; it does not lock the piece, which [tickLock] would write into
    the two bottom rows. *)
Lemma hardDrop_at_rest_no_lock :
  reachable onFloor
  /\ current onFloor = Some (down 20 (pieceFromType Tetro.O))
  /\ collides (grid onFloor) (down 21 (pieceFromType Tetro.O)) = Ok true
  /\ hardDrop 41 Tetro.O onFloor = Ok onFloor
  /\ exists s', tickLock 41 Tetro.O onFloor = Ok s'
       /\ grid s' <> grid onFloor
       /\ current s' <> current onFloor.
Proof.
  split; [exact onFloor_reachable|]. split; [reflexivity|].
  split; [vm_compute; reflexivity|]. split; [vm_compute; reflexivity|].
  eexists. split; [vm_compute; reflexivity|]. split; discriminate.
Qed.

(** C4, amended. [hardDrop] moves the active piece down row by row to
    the last offset [k] from which one more row would collide. If the
    piece moved ([k > 0]) it is locked at once: [tickLock] merges it,
    runs [clearLines] and spawns the next piece. If it could not go
    down even one row ([k = 0]) nothing happens: the state is returned
    as it is and the piece is not locked. *)
Theorem hardDrop_drops_then_locks fuel r s p c0 rest :
  wfGrid (grid s) -> current s = Some p -> shape p = c0 :: rest ->
  (Z.to_nat (ROWS - (y p + cy c0)) < fuel)%nat ->
  exists k, 0 <= k
    /\ (forall j, 1 <= j <= k -> collides (grid s) (down j p) = Ok false)
    /\ collides (grid s) (down (k + 1) p) = Ok true
    /\ hardDrop fuel r s
       = (if 0 <? k then
            g ← merge (grid s) (down k p);
            '(_, s1) ← clearLines fuel (set_grid g (set_current (Some (down k p)) s));
            spawn r s1
          else Ok s).
Proof.
  intros Hwf Hcur Hs Hfuel.
  destruct (dropLoop_spec fuel (grid s) p false c0 rest Hwf Hs Hfuel)
    as (k & Hk & Hpath & Hstop & Hrun).
  exists k. split; [exact Hk|]. split; [exact Hpath|]. split; [exact Hstop|].
  unfold hardDrop. rewrite Hcur, Hrun, bind_Ok. cbn [orb].
  destruct (Z.ltb_spec 0 k) as [Hpos|Hzero].
  - reflexivity.
  - replace k with 0 by lia. rewrite down_0. f_equal.
    destruct s; simpl in *; now subst.
Qed.

Lemma hardDrop_drops_then_locks_witness :
  exists k, 0 <= k
    /\ (forall j, 1 <= j <= k ->
          collides (grid almost) (down j (pieceFromType Tetro.O)) = Ok false)
    /\ collides (grid almost) (down (k + 1) (pieceFromType Tetro.O)) = Ok true
    /\ hardDrop 41 Tetro.J (set_current (Some (pieceFromType Tetro.O)) almost)
       = (if 0 <? k then
            g ← merge (grid almost) (down k (pieceFromType Tetro.O));
            '(_, s1) ← clearLines 41
                         (set_grid g
                            (set_current (Some (down k (pieceFromType Tetro.O)))
                               (set_current (Some (pieceFromType Tetro.O)) almost)));
            spawn Tetro.J s1
          else Ok (set_current (Some (pieceFromType Tetro.O)) almost)).
Proof.
  apply (hardDrop_drops_then_locks 41 Tetro.J
           (set_current (Some (pieceFromType Tetro.O)) almost)
           (pieceFromType Tetro.O) (mkPt 1 0) [mkPt 2 0; mkPt 1 1; mkPt 2 1]).
  - split; [reflexivity|]. repeat constructor.
  - reflexivity.
  - reflexivity.
  - vm_compute. lia.
Defined.

(** ** Which pieces can end the session (C10) *)

Lemma fresh_free g t :
  t <> Tetro.S -> t <> Tetro.Z -> collides g (pieceFromType t) = Ok false.
Proof. intros HS HZ. destruct t; try reflexivity; contradiction. Qed.

Lemma fresh_hit g t :
  collides g (pieceFromType t) = Ok true -> t = Tetro.S \/ t = Tetro.Z.
Proof.
  intros Hhit. destruct (decide (t = Tetro.S)) as [|HS]; [now left|].
  destruct (decide (t = Tetro.Z)) as [|HZ]; [now right|].
  rewrite fresh_free in Hhit by assumption. discriminate.
Qed.

Lemma endedBySZ_same s s' : over s' = over s -> endedBySZ s s'.
Proof. intros Heq H0 H1. congruence. Qed.

(** A run that returned the state it was given did not end the session. *)
Ltac unchanged H := injection H as <-; now apply endedBySZ_same.

Lemma spawn_ended r s s' t :
  next s = pieceFromType t -> spawn r s = Ok s' -> endedBySZ s s'.
Proof.
  intros Hnext Hrun Hov Hov'. unfold spawn in Hrun.
  cbn [grid set_holdUsed set_current set_next] in Hrun.
  rewrite Hnext, pieceFromType_anchor in Hrun.
  apply bind_Ok_inv in Hrun as ([|] & Hb & [= <-]).
  - exists (pieceFromType t). split; [reflexivity|].
    destruct (fresh_hit _ _ Hb) as [-> | ->]; auto.
  - simpl in Hov'. congruence.
Qed.

Lemma clearLines_frame fuel s v s' :
  clearLines fuel s = Ok (v, s') -> next s' = next s /\ over s' = over s.
Proof.
  unfold clearLines. intros Hrun.
  apply bind_Ok_inv in Hrun as ([g c] & _ & Hrest). cbn zeta in Hrest.
  destruct (c =? 0); [injection Hrest as _ <-; auto|].
  cbn [lines level set_lines set_score set_grid] in Hrest.
  destruct (_ >=? _); injection Hrest as _ <-; auto.
Qed.

Lemma tickLock_ended fuel r s s' t :
  next s = pieceFromType t -> tickLock fuel r s = Ok s' -> endedBySZ s s'.
Proof.
  intros Hnext Hrun. unfold tickLock in Hrun.
  destruct (current s) as [cur|]; [|discriminate].
  apply bind_Ok_inv in Hrun as (g & _ & Hrun).
  apply bind_Ok_inv in Hrun as ([v s1] & Hclear & Hspawn).
  apply clearLines_frame in Hclear as [Hn Ho]. simpl in Hn, Ho.
  intros Hov Hov'.
  apply (spawn_ended r s1 s' t); [congruence|exact Hspawn|congruence|exact Hov'].
Qed.

Lemma move_over dx dy s s' : move dx dy s = Ok s' -> over s' = over s.
Proof.
  unfold move. destruct (current s) as [cur|]; [|discriminate].
  intros Hrun. apply bind_Ok_inv in Hrun as ([|] & _ & [= <-]); reflexivity.
Qed.

Lemma rotateCurrent_over s s' : rotateCurrent s = Ok s' -> over s' = over s.
Proof.
  unfold rotateCurrent. destruct (current s) as [cur|]; [|discriminate].
  intros Hrun. apply bind_Ok_inv in Hrun as ([|] & _ & Hrun); cbn [negb] in Hrun.
  - apply bind_Ok_inv in Hrun as ([w|] & _ & [= <-]); reflexivity.
  - now injection Hrun as <-.
Qed.

Lemma togglePause_over t s : over (togglePause t s) = over s.
Proof.
  unfold togglePause. destruct (over s) eqn:Hov; [exact Hov|].
  cbn [paused set_paused]. now destruct (negb (negb (paused s))).
Qed.

Lemma hardDrop_ended fuel r s s' t :
  next s = pieceFromType t -> hardDrop fuel r s = Ok s' -> endedBySZ s s'.
Proof.
  intros Hnext Hrun. unfold hardDrop in Hrun.
  destruct (current s) as [cur|]; [|unchanged Hrun].
  apply bind_Ok_inv in Hrun as ([cur' [|]] & _ & Hrun).
  - intros Hov Hov'.
    exact (tickLock_ended fuel r (set_current (Some cur') s) s' t Hnext Hrun Hov Hov').
  - unchanged Hrun.
Qed.

Lemma update_ended fuel r time s s' t :
  next s = pieceFromType t -> update fuel r time s = Ok s' -> endedBySZ s s'.
Proof.
  intros Hnext Hrun. unfold update in Hrun.
  destruct (paused s || over s); [unchanged Hrun|].
  cbn zeta in Hrun.
  destruct (_ >? _); [|unchanged Hrun].
  destruct (current _) as [cur|]; [|discriminate].
  apply bind_Ok_inv in Hrun as ([|] & _ & Hrun).
  - intros Hov Hov'.
    refine (tickLock_ended fuel r _ s' t _ Hrun _ Hov'); [exact Hnext|exact Hov].
  - unchanged Hrun.
Qed.

Lemma doHold_ended r s s' t :
  next s = pieceFromType t -> doHold r s = Ok s' -> endedBySZ s s'.
Proof.
  intros Hnext Hrun. unfold doHold in Hrun.
  destruct (_ || isNull (current s)); [unchanged Hrun|].
  destruct (current s) as [cur|]; [|discriminate].
  apply bind_Ok_inv in Hrun as (s1 & Hrun & [= <-]).
  destruct (holdType s) as [swapType|].
  - cbn [grid set_current set_holdType] in Hrun.
    apply bind_Ok_inv in Hrun as ([|] & Hb & [= <-]); intros Hov Hov'.
    + exists (pieceFromType swapType). split; [reflexivity|].
      destruct (fresh_hit _ _ Hb) as [-> | ->]; auto.
    + simpl in Hov'. congruence.
  - intros Hov Hov'.
    destruct (spawn_ended r (set_holdType (Some (type cur)) s) s1 t Hnext Hrun Hov)
      as (p & Hp & Ht); [exact Hov'|].
    exists p. auto.
Qed.

Lemma handle_ended fuel e ev s s' t :
  next s = pieceFromType t -> handle fuel e ev s = Ok s' -> endedBySZ s s'.
Proof.
  intros Hnext Hrun. destruct ev as [k|b|time|]; cbn [handle] in Hrun.
  - unfold onKeyDown in Hrun.
    destruct (over s) eqn:Hov; [intros H; congruence|].
    destruct k; try (destruct (paused s); [unchanged Hrun|]);
      eauto using move_over, rotateCurrent_over, endedBySZ_same,
                  hardDrop_ended, doHold_ended.
    + injection Hrun as <-. apply endedBySZ_same, togglePause_over.
    + unchanged Hrun.
  - unfold onPress in Hrun.
    destruct b;
      try (destruct (negb (paused s) && negb (over s));
           [|unchanged Hrun]);
      eauto using move_over, rotateCurrent_over, endedBySZ_same,
                  hardDrop_ended, doHold_ended.
    destruct (negb (over s)); injection Hrun as <-;
      [apply endedBySZ_same, togglePause_over|now apply endedBySZ_same].
  - eapply update_ended; eauto.
  - rewrite reset_run in Hrun. injection Hrun as <-. intros _ Hov'. discriminate.
Qed.

(** C10. Whatever the grid holds, a freshly built piece of a kind other
    than S and Z has all four cells above the top row at the spawn
    anchor and does not collide. In every reachable session, an event
    that ends the session (through the spawn after a lock, the spawn of
    a first hold, or the swap of a later hold) therefore leaves an S or
    a Z as the active piece. *)
Theorem only_S_Z_end_session :
  (forall g t, t <> Tetro.S -> t <> Tetro.Z ->
     x (pieceFromType t) = 3 /\ y (pieceFromType t) = -2
     /\ (forall c, c ∈ shape (pieceFromType t) -> y (pieceFromType t) + cy c < 0)
     /\ collides g (pieceFromType t) = Ok false)
  /\ (forall fuel e ev s s',
        reachable s -> handle fuel e ev s = Ok s' ->
        over s = false -> over s' = true ->
        exists p, current s' = Some p /\ (type p = Tetro.S \/ type p = Tetro.Z)).
Proof.
  split.
  - intros g t HS HZ. split; [reflexivity|]. split; [reflexivity|].
    split; [|now apply fresh_free].
    intros c Hc. rewrite pieceFromType_shape in Hc.
    destruct t; try contradiction; simpl in *;
      repeat (apply elem_of_cons in Hc as [->|Hc]; [simpl; lia|]);
      inversion Hc.
  - intros fuel e ev s s' Hr Hrun Hov Hov'.
    destruct (inv_next s (reachable_Inv s Hr)) as [t Ht].
    exact (handle_ended fuel e ev s s' t Ht Hrun Hov Hov').
Qed.

Lemma towerS_run : (s ← boot Tetro.O envO; run 41 towerEventsS s) = Ok towerS.
Proof. vm_compute. reflexivity. Qed.

Lemma towerS_reachable : reachable towerS.
Proof. exact (boot_run_reachable 41 Tetro.O envO towerEventsS towerS towerS_run). Qed.

Lemma only_S_Z_end_session_witness :
  collides (grid tower) (pieceFromType Tetro.O) = Ok false
  /\ over towerS = false
  /\ exists s' p, handle 41 envO (Frame 1000) towerS = Ok s'
       /\ over s' = true
       /\ current s' = Some p /\ (type p = Tetro.S \/ type p = Tetro.Z).
Proof.
  destruct only_S_Z_end_session as [Hfresh Hend].
  split; [apply (Hfresh (grid tower) Tetro.O); discriminate|].
  split; [reflexivity|].
  destruct (reachable_step 41%nat envO (Frame 1000) towerS towerS_reachable (le_n 41))
    as (s' & Hrun & _).
  assert (over s' = true) as Hov.
  { vm_compute in Hrun. now injection Hrun as <-. }
  destruct (Hend 41%nat envO (Frame 1000) towerS s' towerS_reachable Hrun eq_refl Hov)
    as (p & Hp & Ht).
  exists s', p. auto.
Defined.

(** ** Rotation and the board's bounds (C6) *)

Lemma upright_run : (s ← boot Tetro.O envI; run 41 uprightEvents s) = Ok upright.
Proof. vm_compute. reflexivity. Qed.

Lemma upright_reachable : reachable upright.
Proof. exact (boot_run_reachable 41 Tetro.O envI uprightEvents upright upright_run). Qed.

(** C6, as stated, fails: the active piece of [upright] is within the
    bounds; [rotateCurrent] accepts the turned piece, all of whose cells
    are in row -1, and one of them is in column -1. *)
Lemma rotateCurrent_leaves_bounds :
  reachable upright
  /\ exists p s' q,
       current upright = Some p /\ inBounds p
       /\ rotateCurrent upright = Ok s' /\ current s' = Some q
       /\ mkPt (-1) 1 ∈ shape q /\ x q + cx (mkPt (-1) 1) = -1
       /\ ~ inBounds q.
Proof.
  split; [exact upright_reachable|].
  eexists. eexists. eexists.
  split; [reflexivity|]. split.
  { intros c Hc. simpl in Hc.
    repeat (apply elem_of_cons in Hc as [->|Hc]; [vm_compute; repeat split; discriminate|]).
    inversion Hc. }
  split; [vm_compute; reflexivity|]. split; [reflexivity|].
  assert (mkPt (-1) 1 ∈ [mkPt 2 1; mkPt 1 1; mkPt 0 1; mkPt (-1) 1]) as Hin.
  { do 3 right. left. }
  split; [exact Hin|]. split; [reflexivity|].
  intros Hb. destruct (Hb (mkPt (-1) 1) Hin) as [[Hx _] _]. simpl in Hx. lia.
Qed.

(** C6, amended. After [rotateCurrent], whether the turn was taken as
    it is, taken with a kick or rejected, every cell of the active
    piece that is on or below the top row lies on the board, provided
    this held before the call. Cells above the top row are not checked
    and may be left or right of the board. *)
Theorem rotateCurrent_visible_in_bounds s p :
  wfGrid (grid s) -> current s = Some p -> visibleInBounds p ->
  exists s' q, rotateCurrent s = Ok s' /\ current s' = Some q /\ visibleInBounds q.
Proof.
  intros Hwf Hcur Hvis. unfold rotateCurrent. rewrite Hcur.
  destruct (collides_total (grid s) (rotate p) Hwf) as [[|] Hturn];
    rewrite Hturn, bind_Ok; cbn [negb].
  - destruct (kickLoop_spec (grid s) (rotate p) kicks Hwf)
      as [(tried & k & later & _ & _ & Hfree & ->)|[_ ->]]; rewrite bind_Ok.
    + exists (set_current (Some (aside k (rotate p))) s), (aside k (rotate p)).
      split; [reflexivity|]. split; [reflexivity|].
      exact (collides_false_visible _ _ Hwf Hfree).
    + exists s, p. auto.
  - exists (set_current (Some (rotate p)) s), (rotate p).
    split; [reflexivity|]. split; [reflexivity|].
    exact (collides_false_visible _ _ Hwf Hturn).
Qed.

Lemma rotateCurrent_visible_in_bounds_witness :
  exists s' q, rotateCurrent (emptyState wallI) = Ok s'
    /\ current s' = Some q /\ visibleInBounds q.
Proof.
  apply (rotateCurrent_visible_in_bounds (emptyState wallI) wallI createGrid_wf eq_refl).
  intros c Hc Hy. simpl in Hc.
  repeat (apply elem_of_cons in Hc as [->|Hc]; [vm_compute; repeat split; discriminate|]).
  inversion Hc.
Defined.

(** ** Gravity and level (C5) *)

Lemma fortyLines_run :
  (s ← boot Tetro.O envO; run 41 (concat (replicate 20 twoRows)) s) = Ok fortyLines.
Proof. vm_compute. reflexivity. Qed.

Lemma fortyLines_reachable : reachable fortyLines.
Proof.
  exact (boot_run_reachable 41 Tetro.O envO (concat (replicate 20 twoRows))
           fortyLines fortyLines_run).
Qed.

(** C5, as stated, fails at [k = 4]: [fortyLines] is reachable, it has
    seen four level-ups, and its gravity period is 417 where the closed
    form gives 418. *)
Lemma dropInterval_not_closedForm :
  reachable fortyLines
  /\ lines fortyLines = 40 /\ level fortyLines = 5 /\ levelUps fortyLines = 4%nat
  /\ dropInterval fortyLines = 417
  /\ closedForm 4 = 418.
Proof. split; [exact fortyLines_reachable|]. repeat split. Qed.

Lemma speedUp_floor k : (14 <= k)%nat -> Nat.iter k speedUp 800 = 80.
Proof.
  induction 1 as [|k _ IH]; [reflexivity|].
  rewrite <- speedUp_iter, IH. reflexivity.
Qed.

Lemma closedForm_floor k : (15 <= k)%nat -> closedForm k = 80.
Proof.
  intros Hk.
  assert (1600 * 85 ^ Z.of_nat k < 161 * 100 ^ Z.of_nat k) as Hlt.
  { induction Hk as [|k Hk IH]; [vm_compute; reflexivity|].
    rewrite Nat2Z.inj_succ, !Z.pow_succ_r by lia.
    assert (0 < 100 ^ Z.of_nat k) by (apply Z.pow_pos_nonneg; lia).
    lia. }
  assert (0 < 100 ^ Z.of_nat k) as Hpos by (apply Z.pow_pos_nonneg; lia).
  unfold closedForm.
  assert ((2 * (800 * 85 ^ Z.of_nat k) + 100 ^ Z.of_nat k)
          / (2 * 100 ^ Z.of_nat k) < 81) as Hdiv.
  { apply Z.div_lt_upper_bound; lia. }
  lia.
Qed.

Lemma levels_0_to_14 :
  forallb (fun k =>
             if (k <=? 3)%nat then Nat.iter k speedUp 800 =? closedForm k
             else Nat.iter k speedUp 800 <? closedForm k)
          (seq 0 15) = true.
Proof. vm_compute. reflexivity. Qed.

(** C5, amended. In every reachable session the gravity period is what
    [k] applications of [d -> max(80, floor(d * 0.85))] make of 800,
    [k] being the number of level-ups so far: 800, 680, 578, 491, 417,
    354, 300, ... This agrees with [max(80, round(800 * 0.85^k))] for
    [k <= 3] and for [k >= 15], where both are 80; for [k] from 4 to 14
    it is smaller, each step rounding down what the step before had
    already rounded down. *)
Theorem dropInterval_by_levelUps s :
  reachable s ->
  dropInterval s = Nat.iter (levelUps s) speedUp 800
  /\ ((levelUps s <= 3 \/ 15 <= levelUps s)%nat ->
      dropInterval s = closedForm (levelUps s))
  /\ ((4 <= levelUps s <= 14)%nat -> dropInterval s < closedForm (levelUps s)).
Proof.
  intros Hr. pose proof (inv_speed s (reachable_Inv s Hr)) as Hspd.
  fold (levelUps s) in Hspd. rewrite Hspd. split; [reflexivity|].
  pose proof levels_0_to_14 as Hsmall. rewrite forallb_forall in Hsmall.
  generalize (levelUps s) as k. intros k. clear Hspd. split.
  - intros [Hk|Hk].
    + specialize (Hsmall k). rewrite in_seq in Hsmall.
      destruct (Nat.leb_spec k 3); [|lia].
      apply Z.eqb_eq, Hsmall. lia.
    + rewrite speedUp_floor, closedForm_floor by lia. reflexivity.
  - intros Hk. specialize (Hsmall k). rewrite in_seq in Hsmall.
    destruct (Nat.leb_spec k 3); [lia|].
    apply Z.ltb_lt, Hsmall. lia.
Qed.

Lemma dropInterval_by_levelUps_witness :
  dropInterval fortyLines = Nat.iter 4 speedUp 800
  /\ dropInterval fortyLines < closedForm 4.
Proof.
  destruct (dropInterval_by_levelUps fortyLines fortyLines_reachable)
    as (Hiter & _ & Hlt).
  split; [exact Hiter|]. apply Hlt. vm_compute. split; repeat constructor.
Defined.

(** * Further properties *)

(** ** Collision *)

(** X1. On a grid of [ROWS] by [COLS] slots [collides] never throws, and
    it answers [true] exactly if some cell of the piece that is on or
    below the top row is left of, right of or below the board or lies
    on a slot that holds a colour. *)
Theorem collides_iff_blocked g p :
  wfGrid g ->
  (collides g p = Ok true \/ collides g p = Ok false)
  /\ (collides g p = Ok true <->
      exists c, c ∈ shape p /\ 0 <= y p + cy c
        /\ (x p + cx c < 0 \/ COLS <= x p + cx c \/ ROWS <= y p + cy c
            \/ filled g (y p + cy c) (x p + cx c) = true)).
Proof.
  intros Hwf. rewrite collides_wf by assumption. split.
  { destruct (existsb _ (shape p)); auto. }
  split.
  - intros [= Hex]. apply existsb_exists in Hex as (c & Hc & Hb).
    exists c. split; [now apply list_elem_of_In|].
    unfold blocked in Hb. apply andb_true_iff in Hb as [Hy Hb].
    apply Z.leb_le in Hy. split; [exact Hy|].
    apply orb_true_iff in Hb as [Hb|Hb]; [|auto].
    apply orb_true_iff in Hb as [Hb|Hb]; [|apply Z.leb_le in Hb; auto].
    apply orb_true_iff in Hb as [Hb|Hb];
      [apply Z.ltb_lt in Hb|apply Z.leb_le in Hb]; auto.
  - intros (c & Hc & Hy & Hb). f_equal. apply existsb_exists.
    exists c. split; [now apply list_elem_of_In|].
    unfold blocked. apply andb_true_iff. split; [now apply Z.leb_le|].
    destruct Hb as [Hb|[Hb|[Hb| ->]]].
    + apply Z.ltb_lt in Hb. now rewrite Hb.
    + apply Z.leb_le in Hb. rewrite Hb. now rewrite orb_true_r.
    + apply Z.leb_le in Hb. rewrite Hb. now rewrite !orb_true_r.
    + now rewrite !orb_true_r.
Qed.

Lemma collides_iff_blocked_witness :
  collides (grid tower) (down 1 (pieceFromType Tetro.O)) = Ok true <->
  exists c, c ∈ shape (pieceFromType Tetro.O) /\ 0 <= -2 + 1 + cy c
    /\ (3 + cx c < 0 \/ COLS <= 3 + cx c \/ ROWS <= -2 + 1 + cy c
        \/ filled (grid tower) (-2 + 1 + cy c) (3 + cx c) = true).
Proof.
  apply (collides_iff_blocked (grid tower) (down 1 (pieceFromType Tetro.O))).
  split; [reflexivity|]. repeat constructor.
Defined.

(** ** Rotation *)

Lemma piece_ext p q :
  type p = type q -> shape p = shape q -> x p = x q -> y p = y q ->
  rot p = rot q -> color p = color q -> p = q.
Proof. destruct p, q. simpl. now intros -> -> -> -> -> ->. Qed.

Lemma rotate_fields p :
  type (rotate p) = type p /\ x (rotate p) = x p /\ y (rotate p) = y p
  /\ color (rotate p) = color p /\ rot (rotate p) = Z.rem (rot p + 1) 4
  /\ shape (rotate p) = map (fun q => mkPt (2 - cy q) (cx q)) (shape p).
Proof. unfold rotate. rewrite clonePiece_id. repeat split. Qed.

(** X2. Four quarter turns bring a piece back: [rotate] applied four
    times to a piece whose [rot] is one of 0, 1, 2, 3 gives the piece
    itself, shape, anchor and [rot] included; whatever [rot] is, the
    shape and the anchor come back. *)
Theorem rotate_four_times p :
  shape (rotate (rotate (rotate (rotate p)))) = shape p
  /\ x (rotate (rotate (rotate (rotate p)))) = x p
  /\ y (rotate (rotate (rotate (rotate p)))) = y p
  /\ (0 <= rot p < 4 -> rotate (rotate (rotate (rotate p))) = p).
Proof.
  pose proof (rotate_fields p) as (Ht1 & Hx1 & Hy1 & Hc1 & Hr1 & Hs1).
  pose proof (rotate_fields (rotate p)) as (Ht2 & Hx2 & Hy2 & Hc2 & Hr2 & Hs2).
  pose proof (rotate_fields (rotate (rotate p)))
    as (Ht3 & Hx3 & Hy3 & Hc3 & Hr3 & Hs3).
  pose proof (rotate_fields (rotate (rotate (rotate p))))
    as (Ht4 & Hx4 & Hy4 & Hc4 & Hr4 & Hs4).
  assert (shape (rotate (rotate (rotate (rotate p)))) = shape p) as Hshape.
  { rewrite Hs4, Hs3, Hs2, Hs1, !map_map. rewrite <- (map_id (shape p)) at 2.
    apply map_ext. intros [a b]. cbn. f_equal; lia. }
  split; [exact Hshape|]. split; [congruence|]. split; [congruence|].
  intros Hrot. apply piece_ext; try congruence.
  rewrite Hr4, Hr3, Hr2, Hr1.
  assert (rot p = 0 \/ rot p = 1 \/ rot p = 2 \/ rot p = 3)
    as [->|[->|[->| ->]]] by lia; reflexivity.
Qed.

Lemma rotate_four_times_witness :
  rotate (rotate (rotate (rotate wallI))) = wallI.
Proof.
  destruct (rotate_four_times wallI) as (_ & _ & _ & Hback).
  apply Hback. vm_compute. split; [discriminate|reflexivity].
Defined.

(** ** Moving *)

Lemma shift_back dx dy p : down (- dy) (aside (- dx) (down dy (aside dx p))) = p.
Proof. apply piece_ext; simpl; try reflexivity; lia. Qed.

(** X3. A move of a piece that does not collide is either rejected,
    and then the state stays as it is, or accepted, and then only the
    active piece changes, to the shifted piece, and the opposite move
    is accepted too and brings the state back exactly. *)
Theorem move_undo dx dy s p :
  wfGrid (grid s) -> current s = Some p -> collides (grid s) p = Ok false ->
  exists s1, move dx dy s = Ok s1
    /\ ((collides (grid s) (down dy (aside dx p)) = Ok true /\ s1 = s)
        \/ (collides (grid s) (down dy (aside dx p)) = Ok false
            /\ s1 = set_current (Some (down dy (aside dx p))) s
            /\ onlyCurrent (down dy (aside dx p)) s s1
            /\ move (- dx) (- dy) s1 = Ok s)).
Proof.
  intros Hwf Hcur Hfree.
  destruct (move_run dx dy s p Hwf Hcur) as ([|] & Hb & Hrun).
  - exists s. split; [exact Hrun|]. left. auto.
  - exists (set_current (Some (down dy (aside dx p))) s).
    split; [exact Hrun|]. right. split; [exact Hb|]. split; [reflexivity|].
    split; [repeat split|].
    destruct (move_run (- dx) (- dy)
                (set_current (Some (down dy (aside dx p))) s)
                (down dy (aside dx p)) Hwf eq_refl) as (b & Hb' & Hback).
    rewrite Hback. rewrite shift_back in *. cbn [grid set_current] in Hb'.
    rewrite Hfree in Hb'. injection Hb' as <-.
    f_equal. destruct s; simpl in *. now subst.
Qed.

Lemma move_undo_witness :
  exists s1, move (-1) 0 (emptyState restingO) = Ok s1
    /\ s1 = set_current (Some (aside (-1) restingO)) (emptyState restingO)
    /\ move 1 0 s1 = Ok (emptyState restingO).
Proof.
  destruct (move_undo (-1) 0 (emptyState restingO) restingO createGrid_wf eq_refl eq_refl)
    as (s1 & Hrun & [[Hhit _]|(_ & Hs1 & _ & Hback)]).
  - vm_compute in Hhit. discriminate Hhit.
  - exists s1. split; [exact Hrun|]. split; [|exact Hback].
    rewrite Hs1. reflexivity.
Defined.

(** ** Pause, game over and restart *)

(** X4. While the session is paused, every event but the pause key,
    the pause button and the restart click leaves the state exactly as
    it is: no move, turn, drop, hold or gravity step goes through. *)
Theorem paused_freezes fuel e ev s :
  paused s = true -> isPauseEvent ev = false -> isRestart ev = false ->
  handle fuel e ev s = Ok s.
Proof.
  intros Hp Hnp Hnr. destruct ev as [k|b|time|]; cbn [handle].
  - unfold onKeyDown. destruct (over s); [reflexivity|].
    rewrite Hp. destruct k; try reflexivity. discriminate Hnp.
  - unfold onPress. rewrite Hp. destruct b; try reflexivity.
    discriminate Hnp.
  - unfold update. now rewrite Hp.
  - discriminate Hnr.
Qed.

Lemma paused_freezes_witness :
  handle 41 envO (KeyDown Space) (set_paused true tower) = Ok (set_paused true tower)
  /\ handle 41 envO (Frame 5000) (set_paused true tower) = Ok (set_paused true tower).
Proof.
  split; apply paused_freezes; reflexivity.
Defined.

(** X5. Once the session is over, every event but the restart click
    leaves the state exactly as it is; the pause key and the pause
    button included. *)
Theorem over_freezes fuel e ev s :
  over s = true -> isRestart ev = false -> handle fuel e ev s = Ok s.
Proof.
  intros Hov Hnr. destruct ev as [k|b|time|]; cbn [handle].
  - unfold onKeyDown. now rewrite Hov.
  - unfold onPress. rewrite Hov, andb_false_r. now destruct b.
  - unfold update. now rewrite Hov, orb_true_r.
  - discriminate Hnr.
Qed.

Lemma over_freezes_witness :
  handle 41 envO (KeyDown KeyP) (set_over true tower) = Ok (set_over true tower)
  /\ handle 41 envO (Press BtnDrop) (set_over true tower) = Ok (set_over true tower).
Proof.
  split; apply over_freezes; reflexivity.
Defined.

(** X6. Pausing a running session at [t1] and resuming it at [t2]
    gives back the session as it was, with [lastTime] set to [t2]: the
    accumulated gravity time is kept, and the time spent paused will
    not be counted by the next frame. *)
Theorem pause_resume t1 t2 s :
  over s = false -> paused s = false ->
  togglePause t2 (togglePause t1 s) = set_lastTime t2 s
  /\ paused (togglePause t1 s) = true
  /\ lastTime (togglePause t2 (togglePause t1 s)) = t2
  /\ paused (togglePause t2 (togglePause t1 s)) = false
  /\ dropAccum (togglePause t2 (togglePause t1 s)) = dropAccum s.
Proof.
  intros Hov Hp. unfold togglePause. rewrite Hov.
  cbn [paused set_paused over]. rewrite Hp. cbn [negb].
  cbn [paused set_paused over]. rewrite Hov. cbn [negb].
  split; [destruct s; simpl in *; now subst|]. repeat split.
Qed.

Lemma pause_resume_witness :
  togglePause 900 (togglePause 100 tower) = set_lastTime 900 tower
  /\ paused (togglePause 100 tower) = true
  /\ lastTime (togglePause 900 (togglePause 100 tower)) = 900
  /\ paused (togglePause 900 (togglePause 100 tower)) = false
  /\ dropAccum (togglePause 900 (togglePause 100 tower)) = dropAccum tower.
Proof. apply pause_resume; reflexivity. Defined.

(** X7. The restart click works from every state, paused or over or
    not: the handler completes, and the session it leaves depends on
    nothing but the two draws and the clock. That session has an empty
    grid, zeroed counters, level 1, the initial gravity period, an
    empty hold slot; it is neither paused nor over, the first draw is
    in play and the second is next; it is a state that loading the
    script could have produced. *)
Theorem restart_fresh fuel e s :
  exists s', handle fuel e Restart s = Ok s'
    /\ (forall s0, handle fuel e Restart s0 = Ok s')
    /\ reachable s'
    /\ (forall gy gx, 0 <= gy < ROWS -> 0 <= gx < COLS ->
          cellAt (grid s') gy gx = Some Null)
    /\ score s' = Num 0 /\ lines s' = 0 /\ level s' = 1 /\ dropInterval s' = 800
    /\ holdType s' = None /\ holdUsed s' = false
    /\ paused s' = false /\ over s' = false
    /\ current s' = Some (pieceFromType (draw1 e))
    /\ next s' = pieceFromType (draw2 e)
    /\ lastTime s' = now e /\ dropAccum s' = 0.
Proof.
  cbn [handle]. eexists. split; [apply reset_run|].
  split; [intros s0; apply reset_run|].
  split.
  { apply (reach_boot Tetro.I e). unfold boot. apply reset_run. }
  split; [|repeat split].
  intros gy gx Hgy Hgx. cbn [grid]. unfold cellAt, createGrid, emptyRow.
  rewrite lookup_replicate_2 by (unfold ROWS in *; lia).
  apply lookup_replicate_2. unfold COLS in *. lia.
Qed.

(** ** Clearing twice *)

(** X8. [clearLines] leaves nothing to clear: after a call on a grid of
    [ROWS] by [COLS] slots no row is full, the grid still has its size,
    and a second call right away changes nothing at all. *)
Theorem clearLines_twice fuel s v s1 :
  wfGrid (grid s) -> (41 <= fuel)%nat -> clearLines fuel s = Ok (v, s1) ->
  wfGrid (grid s1) /\ noFullRow (grid s1)
  /\ clearLines fuel s1 = Ok (Undefined, s1).
Proof.
  intros Hwf Hfuel Hrun.
  rewrite clearLines_run in Hrun by (try assumption; apply Hwf).
  injection Hrun as _ <-.
  assert (wfGrid (grid (afterClear s))) as Hwf1.
  { rewrite afterClear_grid. now apply clearedGrid_wf. }
  assert (noFullRow (grid (afterClear s))) as Hnf1.
  { rewrite afterClear_grid. apply clearedGrid_noFull. }
  split; [exact Hwf1|]. split; [exact Hnf1|].
  rewrite clearLines_run by (try assumption; apply Hwf1).
  f_equal. f_equal. unfold afterClear at 1. cbn zeta.
  rewrite (noFullRow_countFull _ Hnf1). cbn [Z.eqb].
  rewrite clearedGrid_id by now apply noFullRow_countFull.
  now destruct (afterClear s).
Qed.

Lemma clearLines_twice_witness :
  exists s1, clearLines 41 nineLines = Ok (Undefined, s1)
    /\ noFullRow (grid s1) /\ clearLines 41 s1 = Ok (Undefined, s1).
Proof.
  assert (wfGrid (grid nineLines)) as Hwf.
  { split; [reflexivity|]. repeat constructor. }
  pose proof (clearLines_run 41 nineLines (proj1 Hwf) (le_n 41)) as Hrun.
  exists (afterClear nineLines). split; [exact Hrun|].
  destruct (clearLines_twice 41 nineLines Undefined _ Hwf (le_n 41) Hrun)
    as (_ & Hnf & Hagain).
  split; [exact Hnf|exact Hagain].
Defined.

(** ** What a merge writes *)

Lemma cellAt_setCell g gy gx v g' gy' gx' :
  wfGrid g -> 0 <= gy < ROWS -> 0 <= gx < COLS ->
  setCell g gy gx v = Ok g' -> 0 <= gy' -> 0 <= gx' ->
  cellAt g' gy' gx'
  = if (gx =? gx') && (gy =? gy') then Some v else cellAt g gy' gx'.
Proof.
  intros Hwf Hgy Hgx Hset Hgy' Hgx'.
  destruct (wfGrid_lookup g gy Hwf Hgy) as [row Hrow].
  pose proof (wfGrid_row g _ row Hwf Hrow) as Hlen.
  unfold setCell in Hset. rewrite Hrow in Hset. injection Hset as <-.
  unfold rowSet.
  replace (gx <? 0) with false by (symmetry; apply Z.ltb_ge; lia).
  replace (Z.to_nat gx <? length row)%nat with true
    by (symmetry; apply Nat.ltb_lt; rewrite Hlen; unfold COLS in *; lia).
  unfold cellAt.
  destruct (Z.eqb_spec gy gy') as [<-|Hney].
  - rewrite list_lookup_insert_eq by (eapply lookup_lt_Some; eauto).
    rewrite Hrow. destruct (Z.eqb_spec gx gx') as [<-|Hnex]; cbn [andb].
    + apply list_lookup_insert_eq. rewrite Hlen. unfold COLS in *. lia.
    + apply list_lookup_insert_ne. lia.
  - rewrite andb_false_r. rewrite list_lookup_insert_ne by lia. reflexivity.
Qed.

Lemma cellAt_mergeCells px py col cells : forall g g',
  wfGrid g ->
  (forall c, c ∈ cells -> 0 <= py + cy c -> 0 <= px + cx c < COLS /\ py + cy c < ROWS) ->
  mergeCells g px py col cells = Ok g' ->
  forall gy gx, 0 <= gy -> 0 <= gx ->
    cellAt g' gy gx
    = if existsb (fun c => (px + cx c =? gx) && (py + cy c =? gy)) cells
      then Some (Color col) else cellAt g gy gx.
Proof.
  induction cells as [|c rest IH]; intros g g' Hwf Hin Hm gy gx Hgy Hgx.
  - injection Hm as <-. reflexivity.
  - cbn [mergeCells existsb] in *.
    assert (forall c', c' ∈ rest -> 0 <= py + cy c' ->
              0 <= px + cx c' < COLS /\ py + cy c' < ROWS) as Hrest.
    { intros c' Hc'. apply Hin. now right. }
    destruct (Z.geb_spec (py + cy c) 0) as [Hy|Hy].
    + destruct (Hin c) as [Hx Hr]; [left|lia|].
      destruct (setCell_wf g (py + cy c) (px + cx c) (Color col))
        as (g1 & Hset & Hwf1 & _); [assumption|lia|lia|].
      rewrite Hset, bind_Ok in Hm.
      rewrite (IH g1 g' Hwf1 Hrest Hm gy gx Hgy Hgx).
      rewrite (cellAt_setCell g (py + cy c) (px + cx c) (Color col) g1 gy gx Hwf)
        by (try assumption; lia).
      destruct (existsb _ rest); [now rewrite orb_true_r|].
      now rewrite orb_false_r.
    + rewrite (IH g g' Hwf Hrest Hm gy gx Hgy Hgx).
      replace (py + cy c =? gy) with false by (symmetry; apply Z.eqb_neq; lia).
      now rewrite andb_false_r.
Qed.

(** X9. Merging a piece that does not collide writes the piece's
    colour into exactly the slots under its cells on or below the top
    row; each of them lies on the board and held no colour before;
    every other slot, and the size of the grid, stay as they were.
    Cells of the piece above the top row are dropped. *)
Theorem merge_writes_piece g p :
  wfGrid g -> collides g p = Ok false ->
  exists g', merge g p = Ok g' /\ wfGrid g'
    /\ (forall gy gx, 0 <= gy -> 0 <= gx ->
          cellAt g' gy gx
          = if covers p gx gy then Some (Color (color p)) else cellAt g gy gx)
    /\ (forall gy gx, 0 <= gy -> covers p gx gy = true ->
          0 <= gx < COLS /\ gy < ROWS /\ filled g gy gx = false).
Proof.
  intros Hwf Hfree.
  pose proof (collides_false_visible _ _ Hwf Hfree) as Hvis.
  destruct (merge_wf g p Hwf Hvis) as (g' & Hm & Hwf' & _).
  exists g'. split; [exact Hm|]. split; [exact Hwf'|]. split.
  - intros gy gx Hgy Hgx. unfold covers.
    exact (cellAt_mergeCells _ _ _ _ g g' Hwf Hvis Hm gy gx Hgy Hgx).
  - intros gy gx Hgy Hcov. unfold covers in Hcov.
    apply existsb_exists in Hcov as (c & Hc & Heq).
    apply andb_true_iff in Heq as [Hx Hy].
    apply Z.eqb_eq in Hx. apply Z.eqb_eq in Hy. subst gx gy.
    rewrite collides_false_iff in Hfree by assumption.
    apply list_elem_of_In in Hc. specialize (Hfree c Hc).
    apply blocked_false in Hfree. destruct Hfree as [Hneg|(? & ? & ?)]; [lia|].
    repeat split; try lia. assumption.
Qed.

Lemma merge_writes_piece_witness :
  exists g', merge (grid almost) restingO = Ok g'
    /\ cellAt g' 19 4 = Some (Color "#f1e05a")
    /\ cellAt g' 19 3 = cellAt (grid almost) 19 3
    /\ cellAt g' 17 4 = cellAt (grid almost) 17 4.
Proof.
  destruct (merge_writes_piece (grid almost) restingO) as (g' & Hm & _ & Hcells & _).
  - split; [reflexivity|]. repeat constructor.
  - reflexivity.
  - exists g'. split; [exact Hm|].
    split; [|split]; rewrite Hcells by lia; reflexivity.
Defined.

(** ** Sessions as a whole *)

(** X10. From a reachable session no sequence of events makes the
    state transition of a handler throw or loop: with 41 units of fuel
    every event completes, and the session it leaves is reachable
    again. *)
Theorem run_never_throws fuel evs : forall s,
  reachable s -> (41 <= fuel)%nat ->
  exists s', run fuel evs s = Ok s' /\ reachable s'.
Proof.
  induction evs as [|[e ev] rest IH]; intros s Hr Hfuel; cbn [run].
  - exists s. auto.
  - destruct (reachable_step fuel e ev s Hr Hfuel) as (s1 & Hstep & Hr1).
    rewrite Hstep, bind_Ok. now apply IH.
Qed.

Lemma run_never_throws_witness :
  exists s', run 41 (concat (replicate 3 twoRows)) tower = Ok s' /\ reachable s'.
Proof.
  apply run_never_throws; [exact tower_reachable|]. repeat constructor.
Defined.

(** X11. Between any two events the grid has [ROWS] rows of [COLS]
    slots, none of its rows is full, and there is an active piece made
    of four cells; unless the session is over, that piece overlaps no
    settled cell and has no cell on or below the top row off the
    board. *)
Theorem reachable_board s :
  reachable s ->
  length (grid s) = 20%nat
  /\ (forall row, row ∈ grid s -> length row = 10%nat /\ fullRow row = false)
  /\ exists p, current s = Some p /\ length (shape p) = 4%nat
       /\ (over s = false ->
           collides (grid s) p = Ok false
           /\ forall c, c ∈ shape p -> 0 <= y p + cy c ->
                0 <= x p + cx c < 10 /\ y p + cy c < 20
                /\ filled (grid s) (y p + cy c) (x p + cx c) = false).
Proof.
  intros Hr.
  destruct (reachable_Inv s Hr) as [Hwf Hnf (p & Hcur & (Hlen & _) & Hfree) _ _ _ _ _].
  split; [apply Hwf|]. split.
  - intros row Hrow. destruct Hwf as [_ Hrows].
    unfold noFullRow in Hnf. rewrite Forall_forall in Hrows, Hnf.
    split; [now apply Hrows|now apply Hnf].
  - exists p. split; [exact Hcur|]. split; [exact Hlen|].
    intros Hov. specialize (Hfree Hov). split; [exact Hfree|].
    intros c Hc Hy. rewrite collides_false_iff in Hfree by assumption.
    specialize (Hfree c Hc). apply blocked_false in Hfree.
    unfold COLS, ROWS in *. destruct Hfree as [?|(? & ? & ?)]; [lia|].
    repeat split; try lia. assumption.
Qed.

Lemma reachable_board_witness :
  length (grid fortyLines) = 20%nat
  /\ exists p, current fortyLines = Some p /\ length (shape p) = 4%nat.
Proof.
  destruct (reachable_board fortyLines fortyLines_reachable)
    as (Hlen & _ & p & Hcur & Hp & _).
  split; [exact Hlen|]. exists p. auto.
Defined.

(** ** The counters *)

Lemma move_counters dx dy s s' :
  move dx dy s = Ok s' -> counters s' = counters s /\ grid s' = grid s.
Proof.
  unfold move. destruct (current s) as [cur|]; [|discriminate].
  intros Hrun. apply bind_Ok_inv in Hrun as ([|] & _ & [= <-]); auto.
Qed.

Lemma rotateCurrent_counters s s' :
  rotateCurrent s = Ok s' -> counters s' = counters s /\ grid s' = grid s.
Proof.
  unfold rotateCurrent. destruct (current s) as [cur|]; [|discriminate].
  intros Hrun. apply bind_Ok_inv in Hrun as ([|] & _ & Hrun); cbn [negb] in Hrun.
  - apply bind_Ok_inv in Hrun as ([w|] & _ & [= <-]); auto.
  - injection Hrun as <-. auto.
Qed.

Lemma togglePause_counters t s :
  counters (togglePause t s) = counters s /\ grid (togglePause t s) = grid s.
Proof.
  unfold togglePause. destruct (over s); [auto|].
  cbn [paused set_paused]. destruct (negb (negb (paused s))); auto.
Qed.

Lemma spawn_counters r s s' :
  spawn r s = Ok s' -> counters s' = counters s /\ grid s' = grid s.
Proof.
  unfold spawn. intros Hrun.
  apply bind_Ok_inv in Hrun as ([|] & _ & [= <-]); auto.
Qed.

Lemma doHold_counters r s s' :
  doHold r s = Ok s' -> counters s' = counters s /\ grid s' = grid s.
Proof.
  unfold doHold. destruct (_ || isNull (current s)); [intros [= <-]; auto|].
  destruct (current s) as [cur|]; [|discriminate].
  intros Hrun. apply bind_Ok_inv in Hrun as (s1 & Hrun & [= <-]).
  destruct (holdType s) as [swapType|].
  - apply bind_Ok_inv in Hrun as ([|] & _ & [= <-]); auto.
  - apply spawn_counters in Hrun as [Hc Hg]. auto.
Qed.

Lemma afterClear_counters s :
  (countFull (grid s) = 0 /\ counters (afterClear s) = counters s)
  \/ (0 < countFull (grid s) /\ scoring (countFull (grid s)) s (afterClear s)).
Proof.
  unfold afterClear. cbn zeta.
  destruct (Z.eqb_spec (countFull (grid s)) 0) as [Hz|Hnz].
  - left. auto.
  - right. pose proof (countFull_bounds (grid s)).
    split; [lia|]. repeat split.
Qed.

(** The counters after a lock: unchanged, or scored for 1 to 4 rows. *)
Lemma tickLock_counters fuel r s s' :
  Inv s -> over s = false -> (41 <= fuel)%nat -> tickLock fuel r s = Ok s' ->
  counters s' = counters s \/ exists n, 1 <= n <= 4 /\ scoring n s s'.
Proof.
  intros [Hwf Hnf (p & Hcur & (Hlen & _) & Hfree) _ _ _ _ _] Hov Hfuel Hrun.
  destruct (tickLock_run fuel r s p) as (g & Hm & Hwfg & Hcount & Heq);
    try assumption; [lia|auto|].
  rewrite Heq in Hrun. apply spawn_counters in Hrun as [Hc _].
  destruct (afterClear_counters (set_grid g s)) as [[_ Hsame]|[Hpos Hsc]].
  - left. rewrite Hc, Hsame. reflexivity.
  - right. exists (countFull g). cbn [grid set_grid] in *. split; [lia|].
    unfold counters in Hc. injection Hc as Hc1 Hc2 Hc3 Hc4.
    destruct Hsc as (H1 & H2 & H3 & H4). cbn in H1, H2, H3, H4.
    unfold scoring. rewrite Hc1, Hc2, Hc3, Hc4. auto.
Qed.

Lemma hardDrop_counters fuel r s s' :
  Inv s -> over s = false -> (41 <= fuel)%nat -> hardDrop fuel r s = Ok s' ->
  counters s' = counters s \/ exists n, 1 <= n <= 4 /\ scoring n s s'.
Proof.
  intros HI Hov Hfuel Hrun.
  pose proof HI as [Hwf _ (p & Hcur & Hp & Hfree) _ _ _ _ _].
  destruct (pieceOK_first p Hp) as (c0 & rest & Hs & Hc0).
  destruct (dropLoop_spec fuel (grid s) p false c0 rest Hwf Hs)
    as (k & Hk & Hpath & Hstop & Hloop).
  { destruct Hp as (_ & _ & Hy). unfold ROWS. lia. }
  unfold hardDrop in Hrun. rewrite Hcur, Hloop, bind_Ok in Hrun. cbn [orb] in Hrun.
  destruct (Z.ltb_spec 0 k) as [Hpos|Hzero].
  - apply (tickLock_counters fuel r (set_current (Some (down k p)) s) s');
      try assumption.
    apply Inv_set_current; [exact HI|now apply down_ok|].
    intros _. apply Hpath. lia.
  - injection Hrun as <-. left. reflexivity.
Qed.

Lemma update_counters fuel r time s s' :
  Inv s -> (41 <= fuel)%nat -> update fuel r time s = Ok s' ->
  counters s' = counters s \/ exists n, 1 <= n <= 4 /\ scoring n s s'.
Proof.
  intros HI Hfuel Hrun. unfold update in Hrun.
  destruct (paused s || over s) eqn:Hgate; [injection Hrun as <-; now left|].
  apply orb_false_iff in Hgate as [_ Hov]. cbn zeta in Hrun.
  destruct (_ >? _); [|injection Hrun as <-; now left].
  destruct (current _) as [cur|]; [|discriminate].
  apply bind_Ok_inv in Hrun as ([|] & _ & Hrun).
  - refine (tickLock_counters fuel r _ s' _ _ Hfuel Hrun); [|exact Hov].
    now apply Inv_set_dropAccum, Inv_set_dropAccum, Inv_set_lastTime.
  - injection Hrun as <-. now left.
Qed.

(** What an event other than the restart click does to the counters,
    whatever the fuel it completed with. *)
Lemma handle_counters fuel e ev s s' :
  Inv s -> handle fuel e ev s = Ok s' -> isRestart ev = false ->
  counters s' = counters s \/ exists n, 1 <= n <= 4 /\ scoring n s s'.
Proof.
  intros HI Hrun Hnr.
  apply (handle_mono fuel (Nat.max fuel 41)) in Hrun; [|lia].
  assert (41 <= Nat.max fuel 41)%nat as Hfuel by lia.
  revert Hrun Hfuel. generalize (Nat.max fuel 41) as big. intros big Hrun Hfuel.
  destruct ev as [k|b|time|]; cbn [handle] in Hrun; [| | |discriminate].
  - unfold onKeyDown in Hrun.
    destruct (over s) eqn:Hov; [injection Hrun as <-; now left|].
    destruct k;
      try (destruct (paused s); [injection Hrun as <-; now left|]);
      try (left; eapply move_counters; eassumption);
      try (left; eapply doHold_counters; eassumption).
    + left. eapply rotateCurrent_counters; eassumption.
    + now apply (hardDrop_counters big (draw1 e)).
    + injection Hrun as <-. left. apply togglePause_counters.
    + injection Hrun as <-. now left.
  - unfold onPress in Hrun.
    destruct b;
      try (destruct (negb (paused s) && negb (over s)) eqn:Hgate;
           [|injection Hrun as <-; now left]);
      try (apply andb_true_iff in Hgate as [_ Hov]; apply negb_true_iff in Hov);
      try (left; eapply move_counters; eassumption);
      try (left; eapply doHold_counters; eassumption).
    + left. eapply rotateCurrent_counters; eassumption.
    + now apply (hardDrop_counters big (draw1 e)).
    + destruct (negb (over s)); injection Hrun as <-;
        [left; apply togglePause_counters|now left].
  - now apply (update_counters big (draw1 e) time).
Qed.

Lemma speedUp_range k : 80 <= Nat.iter k speedUp 800 <= 800.
Proof.
  induction k as [|k IH]; [cbn; lia|].
  rewrite <- speedUp_iter. set (d := Nat.iter k speedUp 800) in *.
  unfold speedUp.
  assert (d * 85 / 100 <= d) by (apply Z.div_le_upper_bound; lia).
  lia.
Qed.

Lemma speedUp_le d : 80 <= d -> 80 <= speedUp d <= d.
Proof.
  intros Hd. unfold speedUp.
  assert (d * 85 / 100 <= d) by (apply Z.div_le_upper_bound; lia). lia.
Qed.

(** X12. In a reachable session every event but the restart click
    changes the counters as a clear of [n] rows does, for one [n] from
    0 to 4: [lines] grows by [n], [score] by
    [[0, 40, 100, 300, 1200][n]] times the level before the event,
    [level] by at most one. So the score stays a number and never
    falls, lines and level never fall, the gravity period never grows
    and never goes below 80, and without a cleared row no counter
    changes. The counters are taken in the range in which the script's
    doubles compute exactly ([exactCounters]); since no counter falls
    between two restarts, a session within that range was within it
    all the way. *)
Theorem event_counters fuel e ev s s' :
  reachable s -> exactCounters s ->
  handle fuel e ev s = Ok s' -> isRestart ev = false ->
  exists n v,
    0 <= n <= 4 /\ score s = Num v
    /\ score s' = Num (v + nth (Z.to_nat n) [0; 40; 100; 300; 1200] 0 * level s)
    /\ lines s' = lines s + n
    /\ level s <= level s' <= level s + 1
    /\ 80 <= dropInterval s' <= dropInterval s
    /\ (n = 0 -> counters s' = counters s).
Proof.
  intros Hr _ Hrun Hnr. pose proof (reachable_Inv s Hr) as HI.
  pose proof (inv_level s HI) as Hlvl. pose proof (inv_speed s HI) as Hspd.
  destruct (inv_score s HI) as [v Hv].
  pose proof (speedUp_range (Z.to_nat (level s - 1))) as Hrange.
  rewrite <- Hspd in Hrange.
  destruct (handle_counters fuel e ev s s' HI Hrun Hnr)
    as [Hsame|(n & Hn & Hsc & Hl & Hlv & Hd)].
  - exists 0, v. pose proof Hsame as Hc. unfold counters in Hc.
    injection Hc as Hc1 Hc2 Hc3 Hc4.
    split; [lia|]. split; [exact Hv|].
    split; [rewrite Hc1, Hv; f_equal; change (Z.to_nat 0) with 0%nat; cbn [nth]; lia|].
    split; [lia|]. split; [lia|]. split; [lia|]. intros _. exact Hsame.
  - exists n, v. split; [lia|]. split; [exact Hv|].
    split; [rewrite Hsc, Hv, points_in_table by lia; reflexivity|].
    split; [exact Hl|]. rewrite Hlv, Hd.
    pose proof (speedUp_le (dropInterval s)).
    destruct (lines s + n >=? level s * 10);
      (split; [lia|]; split; [lia|]; intros ->; lia).
Qed.

Lemma event_counters_witness :
  exists s' n v,
    handle 41 envO (KeyDown Space) fortyLines = Ok s'
    /\ 0 <= n <= 4 /\ score fortyLines = Num v
    /\ score s' = Num (v + nth (Z.to_nat n) [0; 40; 100; 300; 1200] 0 * level fortyLines)
    /\ lines s' = lines fortyLines + n.
Proof.
  destruct (reachable_step 41 envO (KeyDown Space) fortyLines fortyLines_reachable)
    as (s' & Hrun & _); [repeat constructor|].
  assert (exactCounters fortyLines) as Hex.
  { unfold exactCounters, maxExact, ROWS. cbn. lia. }
  destruct (event_counters 41 envO (KeyDown Space) fortyLines s'
              fortyLines_reachable Hex Hrun eq_refl)
    as (n & v & Hn & Hv & Hsc & Hl & _).
  exists s', n, v. auto.
Defined.

Lemma reachable_level_floor s : reachable s -> (level s - 1) * 10 <= lines s.
Proof.
  induction 1 as [r0 e s Hboot|fuel e ev s s' Hr IH Hstep].
  - unfold boot in Hboot. rewrite reset_run in Hboot. injection Hboot as <-.
    cbn. lia.
  - destruct (isRestart ev) eqn:Hev.
    + destruct ev; try discriminate. cbn [handle] in Hstep.
      rewrite reset_run in Hstep. injection Hstep as <-. cbn. lia.
    + destruct (handle_counters fuel e ev s s' (reachable_Inv s Hr) Hstep Hev)
        as [Hsame|(n & Hn & _ & Hl & Hlv & _)].
      * unfold counters in Hsame. injection Hsame as _ Hl Hlv _. lia.
      * rewrite Hl, Hlv.
        destruct (Z.geb_spec (lines s + n) (level s * 10)); lia.
Qed.

(** X13. In every reachable session the level is a function of the
    lines cleared: [level = floor(lines / 10) + 1]. The single
    [if (lines >= level * 10) level++] per clear never falls behind,
    since a clear adds at most four lines. *)
Theorem level_by_lines s : reachable s -> level s = lines s / 10 + 1.
Proof.
  intros Hr. pose proof (reachable_level_floor s Hr) as Hlow.
  pose proof (inv_lines s (reachable_Inv s Hr)) as [_ Hhigh].
  assert (lines s / 10 = level s - 1) as Hdiv.
  { symmetry. apply (Z.div_unique (lines s) 10 (level s - 1)
                       (lines s - 10 * (level s - 1))); lia. }
  lia.
Qed.

Lemma level_by_lines_witness : level fortyLines = lines fortyLines / 10 + 1.
Proof. exact (level_by_lines fortyLines fortyLines_reachable). Defined.

(** X14. In every reachable session the gravity period lies between
    80 and 800; it is 800 at level 1 and 80 from level 15 on. *)
Theorem gravity_bounds s :
  reachable s ->
  80 <= dropInterval s <= 800
  /\ (level s = 1 -> dropInterval s = 800)
  /\ (15 <= level s -> dropInterval s = 80).
Proof.
  intros Hr. pose proof (inv_speed s (reachable_Inv s Hr)) as Hspd.
  rewrite Hspd. split; [apply speedUp_range|]. split.
  - intros ->. reflexivity.
  - intros Hlvl. apply speedUp_floor. lia.
Qed.

Lemma gravity_bounds_witness : 80 <= dropInterval fortyLines <= 800.
Proof. apply (gravity_bounds fortyLines fortyLines_reachable). Defined.

(** ** The queue and the hold slot *)

(** X15. A lock promotes the queue: in a session that satisfies the
    invariant and is not over, [tickLock] completes, the piece that
    was next is in play at the spawn anchor, the kind just drawn is
    next, and the hold is allowed again; the hold slot and the pause
    flag are untouched. *)
Theorem lock_promotes_next fuel r s :
  Inv s -> over s = false -> (41 <= fuel)%nat ->
  exists s', tickLock fuel r s = Ok s'
    /\ current s' = Some (next s)
    /\ x (next s) = 3 /\ y (next s) = -2 /\ rot (next s) = 0
    /\ next s' = pieceFromType r
    /\ holdUsed s' = false /\ holdType s' = holdType s
    /\ paused s' = paused s.
Proof.
  intros HI Hov Hfuel.
  pose proof HI as [Hwf Hnf (p & Hcur & (Hlen & _) & Hfree) [t Ht] _ _ _ _].
  destruct (tickLock_run fuel r s p) as (g & Hm & Hwfg & Hcount & Hrun);
    try assumption; [lia|auto|].
  destruct (spawn_run r (afterClear (set_grid g s))) as (b & Hb & Hs).
  { rewrite afterClear_grid. now apply clearedGrid_wf. }
  rewrite Hrun, Hs. eexists. split; [reflexivity|].
  rewrite afterClear_next. cbn [next set_grid current holdUsed holdType paused].
  rewrite Ht, pieceFromType_anchor.
  split; [reflexivity|]. split; [reflexivity|]. split; [reflexivity|].
  split; [reflexivity|]. split; [reflexivity|]. split; [reflexivity|].
  unfold afterClear. cbn zeta. cbn [grid set_grid].
  destruct (countFull g =? 0); split; reflexivity.
Qed.

Lemma lock_promotes_next_witness :
  exists s', tickLock 41 Tetro.J almost = Ok s'
    /\ current s' = Some (pieceFromType Tetro.L)
    /\ next s' = pieceFromType Tetro.J /\ holdUsed s' = false.
Proof.
  destruct (lock_promotes_next 41 Tetro.J almost almost_Inv eq_refl)
    as (s' & Hrun & Hcur & _ & _ & _ & Hnext & Hused & _).
  - repeat constructor.
  - exists s'. auto.
Defined.

Lemma doHold_let_through r s p :
  wfGrid (grid s) -> paused s = false -> over s = false ->
  holdUsed s = false -> current s = Some p ->
  exists s', doHold r s = Ok s'
    /\ holdType s' = Some (type p) /\ holdUsed s' = true /\ paused s' = false
    /\ match holdType s with
       | None =>
           current s' = Some (set_rot 0 (set_y (-2) (set_x 3 (next s))))
           /\ next s' = pieceFromType r
       | Some held =>
           current s' = Some (pieceFromType held) /\ next s' = next s
       end.
Proof.
  intros Hwf Hp Hov Hused Hcur. unfold doHold.
  rewrite Hp, Hov, Hused, Hcur. cbn [orb isNull]. cbn zeta.
  destruct (holdType s) as [held|].
  - cbn [grid set_current set_holdType].
    destruct (collides_total (grid s) (pieceFromType held) Hwf) as [b Hb].
    rewrite Hb, !bind_Ok. eexists. split; [reflexivity|].
    destruct b; repeat split; exact Hp.
  - destruct (spawn_run r (set_holdType (Some (type p)) s) Hwf) as (b & Hb & Hs).
    rewrite Hs, bind_Ok. eexists. split; [reflexivity|]. repeat split. exact Hp.
Qed.

(** X16. A hold that is let through (session neither paused nor over,
    hold not yet used, a piece in play) puts the kind of the active
    piece into the hold slot and marks the hold as used; grid and
    counters stay as they are. If the slot was empty, the next piece
    comes into play at the anchor and a new next piece is drawn; if it
    held a kind, a fresh piece of that kind comes into play and the
    next piece stays. *)
Theorem doHold_stores_type r s p :
  wfGrid (grid s) -> paused s = false -> over s = false ->
  holdUsed s = false -> current s = Some p ->
  exists s', doHold r s = Ok s'
    /\ holdType s' = Some (type p) /\ holdUsed s' = true
    /\ grid s' = grid s /\ counters s' = counters s
    /\ match holdType s with
       | None =>
           current s' = Some (set_rot 0 (set_y (-2) (set_x 3 (next s))))
           /\ next s' = pieceFromType r
       | Some held =>
           current s' = Some (pieceFromType held) /\ next s' = next s
       end.
Proof.
  intros Hwf Hp Hov Hused Hcur.
  destruct (doHold_let_through r s p Hwf Hp Hov Hused Hcur)
    as (s' & Hrun & Hh & Hu & _ & Hswap).
  destruct (doHold_counters r s s' Hrun) as [Hc Hg].
  exists s'. split; [exact Hrun|]. split; [exact Hh|]. split; [exact Hu|].
  split; [exact Hg|]. split; [exact Hc|exact Hswap].
Qed.

Lemma doHold_stores_type_witness :
  exists s', doHold Tetro.I tower = Ok s'
    /\ holdType s' = Some Tetro.O /\ holdUsed s' = true
    /\ grid s' = grid tower.
Proof.
  destruct (doHold_stores_type Tetro.I tower (pieceFromType Tetro.O))
    as (s' & Hrun & Hh & Hu & Hg & _); try reflexivity.
  - split; [reflexivity|]. repeat constructor.
  - exists s'. auto.
Defined.

(** A hard drop in a session that satisfies the invariant and is not
    over either leaves the state as it is, or it locks: then the piece
    that was next is in play and the hold is allowed again, the hold
    slot and the pause flag being as they were. *)
Lemma hardDrop_locks fuel r s :
  Inv s -> over s = false -> (41 <= fuel)%nat ->
  exists s', hardDrop fuel r s = Ok s'
    /\ (s' = s
        \/ (current s' = Some (next s) /\ holdUsed s' = false
            /\ holdType s' = holdType s /\ paused s' = paused s)).
Proof.
  intros HI Hov Hfuel.
  pose proof HI as [Hwf Hnf (p & Hcur & Hp & Hfree) [t Ht] _ _ _ _].
  destruct (pieceOK_first p Hp) as (c0 & rest & Hs & Hc0).
  destruct (dropLoop_spec fuel (grid s) p false c0 rest Hwf Hs)
    as (k & Hk & Hpath & Hstop & Hloop).
  { destruct Hp as (_ & _ & Hy). unfold ROWS. lia. }
  unfold hardDrop. rewrite Hcur, Hloop, bind_Ok. cbn [orb].
  destruct (Z.ltb_spec 0 k) as [Hpos|Hzero].
  - destruct (tickLock_run fuel r (set_current (Some (down k p)) s) (down k p))
      as (g & Hm & Hwfg & Hcount & Hrun); try assumption.
    + reflexivity.
    + destruct Hp as (Hlen & _). simpl. lia.
    + apply Hpath. lia.
    + destruct (spawn_run r (afterClear (set_grid g (set_current (Some (down k p)) s))))
        as (b & Hb & Hsp).
      { rewrite afterClear_grid. now apply clearedGrid_wf. }
      rewrite Hrun, Hsp. eexists. split; [reflexivity|]. right.
      rewrite afterClear_next. cbn [next set_grid set_current current holdUsed holdType paused].
      rewrite Ht, pieceFromType_anchor.
      split; [reflexivity|]. split; [reflexivity|].
      unfold afterClear. cbn zeta. cbn [grid set_grid].
      destruct (countFull g =? 0); split; reflexivity.
  - exists s. split; [|now left].
    replace k with 0 by lia. rewrite down_0. f_equal.
    destruct s; simpl in *; now subst.
Qed.

Lemma heldI_run : (s ← boot Tetro.O envI; run 41 heldEvents s) = Ok heldI.
Proof. vm_compute. reflexivity. Qed.

Lemma heldI_reachable : reachable heldI.
Proof. exact (boot_run_reachable 41 Tetro.O envI heldEvents heldI heldI_run). Qed.

(** X17. A held kind comes back at the next hold, and that hold is
    after the next lock. In a running session with a piece [p] in play
    and the hold allowed, the keys C, Space, C all complete. The first
    hold puts the kind of [p] into the slot and uses the hold up. If
    the hard drop did not lock (the piece could not move, or the hold
    ended the session), the hold is still used up and the second C does
    nothing. If it locked, the piece that was next is in play, and the
    second hold, unless the session is over by then, brings a fresh
    piece of the kind of [p] into play and puts the kind of that next
    piece into the slot: the kind that was in the slot at the start is
    not put back. *)
Theorem hold_returns_after_lock fuel e1 e2 e3 s p :
  reachable s -> (41 <= fuel)%nat ->
  paused s = false -> over s = false -> holdUsed s = false ->
  current s = Some p ->
  exists s1 s2 s3,
    handle fuel e1 (KeyDown KeyC) s = Ok s1
    /\ handle fuel e2 (KeyDown Space) s1 = Ok s2
    /\ handle fuel e3 (KeyDown KeyC) s2 = Ok s3
    /\ holdType s1 = Some (type p) /\ holdUsed s1 = true
    /\ (holdUsed s2 = true -> s2 = s1 /\ s3 = s1)
    /\ (over s2 = true -> s3 = s2)
    /\ (holdUsed s2 = false -> over s2 = false ->
          current s2 = Some (next s1)
          /\ current s3 = Some (pieceFromType (type p))
          /\ holdType s3 = Some (type (next s1))
          /\ holdUsed s3 = true).
Proof.
  intros Hr Hfuel Hp Hov Hused Hcur.
  pose proof (inv_wf s (reachable_Inv s Hr)) as Hwf.
  destruct (doHold_let_through (draw1 e1) s p Hwf Hp Hov Hused Hcur)
    as (s1 & Hrun1 & Hh1 & Hu1 & Hp1 & _).
  assert (handle fuel e1 (KeyDown KeyC) s = Ok s1) as Hstep1.
  { cbn [handle]. unfold onKeyDown. now rewrite Hov, Hp. }
  assert (reachable s1) as Hr1 by (eapply reach_step; eauto).
  assert (handle fuel e3 (KeyDown KeyC) s1 = Ok s1) as Hnoop.
  { cbn [handle]. unfold onKeyDown. destruct (over s1); [reflexivity|].
    rewrite Hp1. unfold doHold. rewrite Hu1. now rewrite orb_true_r. }
  exists s1. destruct (over s1) eqn:Hov1.
  - exists s1, s1. split; [exact Hstep1|].
    split; [cbn [handle]; unfold onKeyDown; now rewrite Hov1|].
    split; [exact Hnoop|]. split; [exact Hh1|]. split; [exact Hu1|].
    split; [auto|]. split; [auto|]. intros Hu. rewrite Hu1 in Hu. discriminate.
  - destruct (hardDrop_locks fuel (draw1 e2) s1 (reachable_Inv s1 Hr1) Hov1 Hfuel)
      as (s2 & Hrun2 & Hcases).
    assert (handle fuel e2 (KeyDown Space) s1 = Ok s2) as Hstep2.
    { cbn [handle]. unfold onKeyDown. now rewrite Hov1, Hp1. }
    exists s2. destruct Hcases as [->|(Hcur2 & Hu2 & Hh2 & Hp2)].
    + exists s1. split; [exact Hstep1|]. split; [exact Hstep2|].
      split; [exact Hnoop|]. split; [exact Hh1|]. split; [exact Hu1|].
      split; [auto|]. split; [auto|]. intros Hu. rewrite Hu1 in Hu. discriminate.
    + assert (reachable s2) as Hr2 by (eapply reach_step; eauto).
      destruct (reachable_step fuel e3 (KeyDown KeyC) s2 Hr2 Hfuel)
        as (s3 & Hstep3 & _).
      exists s3. split; [exact Hstep1|]. split; [exact Hstep2|].
      split; [exact Hstep3|]. split; [exact Hh1|]. split; [exact Hu1|].
      split; [intros Hu; rewrite Hu2 in Hu; discriminate|].
      split.
      * intros Hov2. cbn [handle] in Hstep3. unfold onKeyDown in Hstep3.
        rewrite Hov2 in Hstep3. now injection Hstep3 as <-.
      * intros _ Hov2. split; [exact Hcur2|].
        cbn [handle] in Hstep3. unfold onKeyDown in Hstep3.
        rewrite Hov2, Hp2, Hp1 in Hstep3.
        destruct (doHold_let_through (draw1 e3) s2 (next s1)
                    (inv_wf s2 (reachable_Inv s2 Hr2))) as (s3' & Hrun3 & Hh3 & Hu3 & _ & Hswap);
          [now rewrite Hp2|exact Hov2|exact Hu2|exact Hcur2|].
        rewrite Hrun3 in Hstep3. injection Hstep3 as <-.
        rewrite Hh2, Hh1 in Hswap. destruct Hswap as [Hcur3 _].
        split; [exact Hcur3|]. split; [exact Hh3|exact Hu3].
Qed.

Lemma hold_returns_after_lock_witness :
  holdType heldI = Some Tetro.I
  /\ exists s1 s2 s3,
       handle 41 envO (KeyDown KeyC) heldI = Ok s1
       /\ handle 41 (mkEnv 0 Tetro.J Tetro.J) (KeyDown Space) s1 = Ok s2
       /\ handle 41 envO (KeyDown KeyC) s2 = Ok s3
       /\ holdType s1 = Some Tetro.T
       /\ current s1 = Some (pieceFromType Tetro.I)
       /\ current s2 = Some (pieceFromType Tetro.L)
       /\ current s3 = Some (pieceFromType Tetro.T)
       /\ holdType s3 = Some Tetro.L.
Proof.
  split; [reflexivity|].
  destruct (hold_returns_after_lock 41 envO (mkEnv 0 Tetro.J Tetro.J) envO heldI
              (pieceFromType Tetro.T) heldI_reachable (le_n 41)
              eq_refl eq_refl eq_refl eq_refl)
    as (s1 & s2 & s3 & H1 & H2 & H3 & Hh1 & _ & _ & _ & Hlock).
  exists s1, s2, s3. split; [exact H1|]. split; [exact H2|]. split; [exact H3|].
  split; [exact Hh1|].
  pose proof H1 as E1. vm_compute in E1. injection E1 as <-.
  pose proof H2 as E2. vm_compute in E2. injection E2 as <-.
  destruct (Hlock eq_refl eq_refl) as (Hc2 & Hc3 & Hh3 & _).
  split; [reflexivity|]. split; [exact Hc2|]. split; [exact Hc3|exact Hh3].
Defined.

(** ** The ghost piece and the hard drop *)

Lemma ghostLoop_dropLoop fuel : forall g p moved,
  ghostLoop fuel g p = (r ← dropLoop fuel g p moved; Ok r.1).
Proof.
  induction fuel as [|fuel IH]; intros g p moved; [reflexivity|].
  cbn [ghostLoop dropLoop]. rewrite clonePiece_id.
  destruct (collides g (set_y (y p + 1) p)) as [[|]| |]; try reflexivity.
  rewrite !bind_Ok. apply IH.
Qed.

Lemma paintCells_spec q col gx gy col' :
  In (gx, gy, col') (paintCells q col) <->
  exists c, c ∈ shape q /\ gx = x q + cx c /\ gy = y q + cy c /\ 0 <= gy
            /\ col' = col.
Proof.
  unfold paintCells. rewrite in_flat_map. split.
  - intros (c & Hc & Hin). exists c. split; [now apply list_elem_of_In|].
    destruct (Z.geb_spec (y q + cy c) 0); [|contradiction].
    destruct Hin as [[= <- <- <-]|[]]. repeat split; lia.
  - intros (c & Hc & -> & -> & Hy & ->). exists c.
    split; [now apply list_elem_of_In|].
    destruct (Z.geb_spec (y q + cy c) 0); [now left|lia].
Qed.

(** X18. The ghost shows where a hard drop puts the piece. For an
    active piece that does not collide, [drawGhostPiece] paints the
    cells of the piece moved down by the same [k] rows by which
    [hardDrop] moves it before locking: the largest [k] such that no
    step on the way collides. Every painted cell is on the board, on a
    slot that holds no colour, and in the colour of the active
    piece. *)
Theorem ghost_is_landing fuel r s p c0 rest :
  wfGrid (grid s) -> current s = Some p -> collides (grid s) p = Ok false ->
  shape p = c0 :: rest -> (Z.to_nat (ROWS - (y p + cy c0)) < fuel)%nat ->
  exists k, 0 <= k
    /\ (forall j, 0 <= j <= k -> collides (grid s) (down j p) = Ok false)
    /\ collides (grid s) (down (k + 1) p) = Ok true
    /\ drawGhostPiece fuel s = Ok (paintCells (down k p) (color p))
    /\ hardDrop fuel r s
       = (if 0 <? k then tickLock fuel r (set_current (Some (down k p)) s)
          else Ok s)
    /\ (forall gx gy col, In (gx, gy, col) (paintCells (down k p) (color p)) ->
          0 <= gx < COLS /\ 0 <= gy < ROWS
          /\ filled (grid s) gy gx = false /\ col = color p).
Proof.
  intros Hwf Hcur Hfree Hs Hfuel.
  destruct (dropLoop_spec fuel (grid s) p false c0 rest Hwf Hs Hfuel)
    as (k & Hk & Hpath & Hstop & Hloop).
  assert (forall j, 0 <= j <= k -> collides (grid s) (down j p) = Ok false) as Hall.
  { intros j Hj. destruct (Z.eq_dec j 0) as [->|Hne].
    - now rewrite down_0.
    - apply Hpath. lia. }
  exists k. split; [exact Hk|]. split; [exact Hall|]. split; [exact Hstop|].
  split; [|split].
  - unfold drawGhostPiece. rewrite Hcur, clonePiece_id.
    rewrite (ghostLoop_dropLoop fuel (grid s) p false), Hloop. reflexivity.
  - unfold hardDrop. rewrite Hcur, Hloop, bind_Ok. cbn [orb].
    destruct (Z.ltb_spec 0 k) as [Hpos|Hzero]; [reflexivity|].
    replace k with 0 by lia. rewrite down_0. f_equal.
    destruct s; simpl in *; now subst.
  - intros gx gy col Hin.
    apply paintCells_spec in Hin as (c & Hc & -> & -> & Hy & ->).
    pose proof (Hall k (conj Hk (Z.le_refl k))) as Hland.
    rewrite collides_false_iff in Hland by assumption.
    specialize (Hland c Hc). apply blocked_false in Hland.
    destruct Hland as [Hneg|(? & ? & ?)]; [lia|]. auto.
Qed.

Lemma ghost_is_landing_witness :
  exists k, 0 <= k
    /\ drawGhostPiece 41 (set_current (Some (pieceFromType Tetro.O)) almost)
       = Ok (paintCells (down k (pieceFromType Tetro.O)) "#f1e05a")
    /\ collides (grid almost) (down (k + 1) (pieceFromType Tetro.O)) = Ok true.
Proof.
  destruct (ghost_is_landing 41 Tetro.J
              (set_current (Some (pieceFromType Tetro.O)) almost)
              (pieceFromType Tetro.O) (mkPt 1 0) [mkPt 2 0; mkPt 1 1; mkPt 2 1])
    as (k & Hk & _ & Hstop & Hghost & _).
  - split; [reflexivity|]. repeat constructor.
  - reflexivity.
  - reflexivity.
  - reflexivity.
  - vm_compute. lia.
  - exists k. auto.
Defined.

Lemma aside_0 p : aside 0 p = p.
Proof. apply piece_ext; simpl; try reflexivity; lia. Qed.

Lemma softDrops_path k : forall s p,
  wfGrid (grid s) -> current s = Some p ->
  (forall j, 1 <= j <= Z.of_nat k -> collides (grid s) (down j p) = Ok false) ->
  softDrops k s = Ok (set_current (Some (down (Z.of_nat k) p)) s).
Proof.
  induction k as [|k IH]; intros s p Hwf Hcur Hpath.
  - cbn [softDrops]. rewrite down_0. f_equal. destruct s; simpl in *; now subst.
  - cbn [softDrops].
    destruct (move_run 0 1 s p Hwf Hcur) as (b & Hb & Hrun).
    rewrite aside_0 in *. rewrite Hpath in Hb by lia. injection Hb as <-.
    rewrite Hrun, bind_Ok.
    rewrite (IH (set_current (Some (down 1 p)) s) (down 1 p)); try easy.
    + rewrite down_down. f_equal.
      replace (1 + Z.of_nat k) with (Z.of_nat (S k)) by lia.
      now destruct s.
    + intros j Hj. cbn [grid set_current]. rewrite down_down.
      apply Hpath. lia.
Qed.

(** X19. A hard drop is what the down key does, repeated, and then a
    lock: there is a number [k] of presses of the down key that are
    all accepted, after which one more press is rejected; if [k > 0],
    [hardDrop] gives what [tickLock] gives after these [k] presses, and
    if [k = 0] it does nothing. *)
Theorem hardDrop_as_soft_drops fuel r s p c0 rest :
  wfGrid (grid s) -> current s = Some p ->
  shape p = c0 :: rest -> (Z.to_nat (ROWS - (y p + cy c0)) < fuel)%nat ->
  exists k sk,
    softDrops k s = Ok sk
    /\ current sk = Some (down (Z.of_nat k) p)
    /\ move 0 1 sk = Ok sk
    /\ hardDrop fuel r s = (if (0 <? k)%nat then tickLock fuel r sk else Ok s).
Proof.
  intros Hwf Hcur Hs Hfuel.
  destruct (dropLoop_spec fuel (grid s) p false c0 rest Hwf Hs Hfuel)
    as (k & Hk & Hpath & Hstop & Hloop).
  exists (Z.to_nat k), (set_current (Some (down k p)) s).
  assert (Z.of_nat (Z.to_nat k) = k) as Hn by lia.
  split; [|split; [|split]].
  - rewrite (softDrops_path (Z.to_nat k) s p Hwf Hcur); rewrite Hn; auto.
  - now rewrite Hn.
  - destruct (move_run 0 1 (set_current (Some (down k p)) s) (down k p) Hwf eq_refl)
      as (b & Hb & Hrun).
    rewrite aside_0, down_down in Hb. cbn [grid set_current] in Hb.
    rewrite Hstop in Hb. injection Hb as <-. exact Hrun.
  - unfold hardDrop. rewrite Hcur, Hloop, bind_Ok. cbn [orb].
    destruct (Z.ltb_spec 0 k) as [Hpos|Hzero];
      destruct (Nat.ltb_spec 0 (Z.to_nat k)); try lia; [reflexivity|].
    replace k with 0 by lia. rewrite down_0. f_equal.
    destruct s; simpl in *; now subst.
Qed.

Lemma hardDrop_as_soft_drops_witness :
  exists k sk,
    softDrops k (set_current (Some (pieceFromType Tetro.O)) almost) = Ok sk
    /\ current sk = Some (down (Z.of_nat k) (pieceFromType Tetro.O))
    /\ move 0 1 sk = Ok sk
    /\ hardDrop 41 Tetro.J (set_current (Some (pieceFromType Tetro.O)) almost)
       = (if (0 <? k)%nat then tickLock 41 Tetro.J sk
          else Ok (set_current (Some (pieceFromType Tetro.O)) almost)).
Proof.
  apply (hardDrop_as_soft_drops 41 Tetro.J
           (set_current (Some (pieceFromType Tetro.O)) almost)
           (pieceFromType Tetro.O) (mkPt 1 0) [mkPt 2 0; mkPt 1 1; mkPt 2 1]).
  - split; [reflexivity|]. repeat constructor.
  - reflexivity.
  - reflexivity.
  - vm_compute. lia.
Defined.

(** ** Settled cells and canonical pieces *)

Lemma turn_four sh : turn (turn (turn (turn sh))) = sh.
Proof.
  unfold turn. rewrite !map_map. rewrite <- (map_id sh) at 2.
  apply map_ext. intros [a b]. cbn. f_equal; lia.
Qed.

Lemma canonical_fresh t : canonical (pieceFromType t).
Proof. destruct t; (split; [cbn; lia|]; split; reflexivity). Qed.

Lemma canonical_fields p q :
  type q = type p -> shape q = shape p -> rot q = rot p -> color q = color p ->
  canonical p -> canonical q.
Proof. unfold canonical. intros -> -> -> ->. auto. Qed.

Lemma canonical_aside k p : canonical p -> canonical (aside k p).
Proof. apply canonical_fields; reflexivity. Qed.

Lemma canonical_down k p : canonical p -> canonical (down k p).
Proof. apply canonical_fields; reflexivity. Qed.

Lemma canonical_rotate p : canonical p -> canonical (rotate p).
Proof.
  intros (Hrot & Hshape & Hcol).
  destruct (rotate_fields p) as (Ht & _ & _ & Hc & Hr & Hs).
  unfold canonical. rewrite Ht, Hc, Hr, Hs, Hshape.
  fold (turn (Nat.iter (Z.to_nat (rot p)) turn (SHAPES (type p)))).
  split; [|split; [|exact Hcol]].
  - apply Z.rem_bound_pos; lia.
  - assert (rot p = 0 \/ rot p = 1 \/ rot p = 2 \/ rot p = 3) as Hcases by lia.
    destruct Hcases as [Hz|[Hz|[Hz|Hz]]]; rewrite Hz; try reflexivity.
    change (Z.to_nat ((3 + 1) `rem` 4)) with 0%nat.
    change (Z.to_nat 3) with 3%nat. cbn [Nat.iter nat_rect]. apply turn_four.
Qed.

Lemma kickLoop_aside g p ks w :
  kickLoop g p ks = Ok (Some w) -> exists k, w = aside k p.
Proof.
  induction ks as [|k rest IH]; cbn [kickLoop]; [discriminate|].
  rewrite clonePiece_id. fold (aside k p). intros Hrun.
  apply bind_Ok_inv in Hrun as ([|] & _ & Hrun); [auto|].
  injection Hrun as <-. now exists k.
Qed.

Lemma settledGrid_clearedGrid g : settledGrid g -> settledGrid (clearedGrid g).
Proof.
  intros Hg. unfold clearedGrid, settledGrid. apply Forall_app. split.
  - apply Forall_replicate. apply Forall_replicate. now left.
  - unfold keepRows, settledGrid in *. rewrite Forall_forall in *.
    intros row Hrow. apply list_elem_of_filter in Hrow as [_ Hrow]. auto.
Qed.

Lemma settledGrid_createGrid : settledGrid (createGrid COLS ROWS).
Proof. apply Forall_replicate. apply Forall_replicate. now left. Qed.

Lemma settledGrid_mergeCells px py t cells : forall g g',
  wfGrid g ->
  (forall c, c ∈ cells -> 0 <= py + cy c -> 0 <= px + cx c < COLS /\ py + cy c < ROWS) ->
  settledGrid g -> mergeCells g px py (COLORS t) cells = Ok g' -> settledGrid g'.
Proof.
  induction cells as [|c rest IH]; intros g g' Hwf Hin Hg Hm.
  - now injection Hm as <-.
  - cbn [mergeCells] in Hm.
    assert (forall c', c' ∈ rest -> 0 <= py + cy c' ->
              0 <= px + cx c' < COLS /\ py + cy c' < ROWS) as Hrest.
    { intros c' Hc'. apply Hin. now right. }
    destruct (Z.geb_spec (py + cy c) 0) as [Hy|Hy]; [|eauto].
    destruct (Hin c) as [Hx Hr]; [left|lia|].
    destruct (setCell_wf g (py + cy c) (px + cx c) (Color (COLORS t)))
      as (g1 & Hset & Hwf1 & _); [assumption|lia|lia|].
    rewrite Hset, bind_Ok in Hm. apply (IH g1 g' Hwf1 Hrest); [|exact Hm].
    unfold setCell in Hset.
    destruct (g !! Z.to_nat (py + cy c)) as [row|] eqn:Hrow; [|discriminate].
    injection Hset as <-. unfold settledGrid in *.
    apply Forall_insert; [exact Hg|].
    assert (Forall settledCell row) as Hsr.
    { rewrite Forall_forall in Hg. apply Hg.
      eapply list_elem_of_lookup_2; eauto. }
    unfold rowSet. destruct (px + cx c <? 0); [exact Hsr|].
    destruct (Z.to_nat (px + cx c) <? length row)%nat eqn:Hlt.
    + apply Forall_insert; [exact Hsr|]. right. now exists t.
    + apply Nat.ltb_ge in Hlt.
      pose proof (wfGrid_row g _ row Hwf Hrow). unfold COLS in *. lia.
Qed.

Lemma Inv2_set_current s p :
  Inv2 s -> canonical p -> Inv2 (set_current (Some p) s).
Proof. intros [Hg _] Hp. split; [exact Hg|]. exists p. auto. Qed.

Lemma spawn_Inv2 r s s' :
  (exists t, next s = pieceFromType t) -> settledGrid (grid s) ->
  spawn r s = Ok s' -> Inv2 s'.
Proof.
  intros [t Ht] Hg Hrun. unfold spawn in Hrun.
  cbn [grid set_holdUsed set_current set_next] in Hrun.
  rewrite Ht, pieceFromType_anchor in Hrun.
  apply bind_Ok_inv in Hrun as ([|] & _ & [= <-]);
    (split; [exact Hg|]; exists (pieceFromType t);
     split; [reflexivity|apply canonical_fresh]).
Qed.

Lemma tickLock_Inv2 fuel r s s' :
  Inv s -> Inv2 s -> over s = false -> (41 <= fuel)%nat ->
  tickLock fuel r s = Ok s' -> Inv2 s'.
Proof.
  intros [Hwf Hnf (p & Hcur & (Hlen & _) & Hfree) Hnext _ _ _ _]
         [Hg (q & Hq & (_ & _ & Hcol))] Hov Hfuel Hrun.
  assert (q = p) as -> by congruence.
  destruct (tickLock_run fuel r s p) as (g & Hm & Hwfg & _ & Heq);
    try assumption; [lia|auto|].
  rewrite Heq in Hrun.
  apply (spawn_Inv2 r (afterClear (set_grid g s)) s'); [| |exact Hrun].
  - now rewrite afterClear_next.
  - rewrite afterClear_grid. cbn [grid set_grid].
    apply settledGrid_clearedGrid.
    unfold merge in Hm. rewrite Hcol in Hm.
    apply (settledGrid_mergeCells (x p) (y p) (type p) (shape p) (grid s) g Hwf);
      try assumption.
    exact (collides_false_visible _ _ Hwf (Hfree Hov)).
Qed.

Lemma move_Inv2 dx dy s s' : Inv2 s -> move dx dy s = Ok s' -> Inv2 s'.
Proof.
  intros HI Hrun. pose proof HI as [Hg (p & Hcur & Hp)].
  unfold move in Hrun. rewrite Hcur, clonePiece_id in Hrun.
  apply bind_Ok_inv in Hrun as ([|] & _ & [= <-]); [exact HI|].
  apply Inv2_set_current; [exact HI|].
  revert Hp. apply canonical_fields; reflexivity.
Qed.

Lemma rotateCurrent_Inv2 s s' : Inv2 s -> rotateCurrent s = Ok s' -> Inv2 s'.
Proof.
  intros HI Hrun. pose proof HI as [Hg (p & Hcur & Hp)].
  unfold rotateCurrent in Hrun. rewrite Hcur in Hrun.
  apply bind_Ok_inv in Hrun as ([|] & _ & Hrun); cbn [negb] in Hrun.
  - apply bind_Ok_inv in Hrun as ([w|] & Hk & [= <-]); [|exact HI].
    apply kickLoop_aside in Hk as [k ->].
    apply Inv2_set_current; [exact HI|].
    now apply canonical_aside, canonical_rotate.
  - injection Hrun as <-. apply Inv2_set_current; [exact HI|].
    now apply canonical_rotate.
Qed.

Lemma hardDrop_Inv2 fuel r s s' :
  Inv s -> Inv2 s -> over s = false -> (41 <= fuel)%nat ->
  hardDrop fuel r s = Ok s' -> Inv2 s'.
Proof.
  intros HI HI2 Hov Hfuel Hrun.
  pose proof HI as [Hwf _ (p & Hcur & Hp & Hfree) _ _ _ _ _].
  pose proof HI2 as [Hg (q & Hq & Hcan)].
  assert (q = p) as -> by congruence.
  destruct (pieceOK_first p Hp) as (c0 & rest & Hs & Hc0).
  destruct (dropLoop_spec fuel (grid s) p false c0 rest Hwf Hs)
    as (k & Hk & Hpath & Hstop & Hloop).
  { destruct Hp as (_ & _ & Hy). unfold ROWS. lia. }
  unfold hardDrop in Hrun. rewrite Hcur, Hloop, bind_Ok in Hrun. cbn [orb] in Hrun.
  destruct (Z.ltb_spec 0 k) as [Hpos|Hzero].
  - apply (tickLock_Inv2 fuel r (set_current (Some (down k p)) s) s');
      try assumption.
    + apply Inv_set_current; [exact HI|now apply down_ok|].
      intros _. apply Hpath. lia.
    + apply Inv2_set_current; [exact HI2|now apply canonical_down].
  - injection Hrun as <-. apply Inv2_set_current; [exact HI2|].
    now apply canonical_down.
Qed.

Lemma update_Inv2 fuel r time s s' :
  Inv s -> Inv2 s -> (41 <= fuel)%nat -> update fuel r time s = Ok s' -> Inv2 s'.
Proof.
  intros HI HI2 Hfuel Hrun. unfold update in Hrun.
  destruct (paused s || over s) eqn:Hgate; [now injection Hrun as <-|].
  apply orb_false_iff in Hgate as [_ Hov]. cbn zeta in Hrun.
  destruct (_ >? _); [|now injection Hrun as <-].
  pose proof HI2 as [Hg (p & Hcur & Hcan)].
  cbn [current set_dropAccum set_lastTime grid] in Hrun.
  rewrite Hcur, clonePiece_id in Hrun. fold (down 1 p) in Hrun.
  apply bind_Ok_inv in Hrun as ([|] & _ & Hrun).
  - refine (tickLock_Inv2 fuel r _ s' _ _ _ Hfuel Hrun); [|exact HI2|exact Hov].
    now apply Inv_set_dropAccum, Inv_set_dropAccum, Inv_set_lastTime.
  - injection Hrun as <-. split; [exact Hg|]. exists (down 1 p).
    split; [reflexivity|now apply canonical_down].
Qed.

Lemma togglePause_Inv2 t s : Inv2 s -> Inv2 (togglePause t s).
Proof.
  intros HI. unfold togglePause. destruct (over s); [exact HI|].
  cbn [paused set_paused]. now destruct (negb (negb (paused s))).
Qed.

Lemma doHold_Inv2 r s s' : Inv s -> Inv2 s -> doHold r s = Ok s' -> Inv2 s'.
Proof.
  intros HI HI2 Hrun. pose proof HI2 as [Hg _]. unfold doHold in Hrun.
  destruct (_ || isNull (current s)); [now injection Hrun as <-|].
  destruct (current s) as [cur|]; [|discriminate].
  apply bind_Ok_inv in Hrun as (s1 & Hrun & [= <-]).
  destruct (holdType s) as [swapType|].
  - apply bind_Ok_inv in Hrun as ([|] & _ & [= <-]);
      (split; [exact Hg|]; exists (pieceFromType swapType);
       split; [reflexivity|apply canonical_fresh]).
  - apply spawn_Inv2 in Hrun; [exact Hrun| |exact Hg].
    exact (inv_next s HI).
Qed.

Lemma reset_Inv2 r1 r2 t s s' : reset r1 r2 t s = Ok s' -> Inv2 s'.
Proof.
  rewrite reset_run. intros [= <-]. split; [apply settledGrid_createGrid|].
  exists (pieceFromType r1). split; [reflexivity|apply canonical_fresh].
Qed.

Lemma handle_Inv2 fuel e ev s s' :
  Inv s -> Inv2 s -> handle fuel e ev s = Ok s' -> Inv2 s'.
Proof.
  intros HI HI2 Hrun.
  apply (handle_mono fuel (Nat.max fuel 41)) in Hrun; [|lia].
  assert (41 <= Nat.max fuel 41)%nat as Hfuel by lia.
  revert Hrun Hfuel. generalize (Nat.max fuel 41) as big. intros big Hrun Hfuel.
  destruct ev as [k|b|time|]; cbn [handle] in Hrun.
  - unfold onKeyDown in Hrun.
    destruct (over s) eqn:Hov; [now injection Hrun as <-|].
    destruct k;
      try (destruct (paused s); [now injection Hrun as <-|]);
      try (eapply move_Inv2; eassumption);
      try (eapply doHold_Inv2; eassumption).
    + eapply rotateCurrent_Inv2; eassumption.
    + now apply (hardDrop_Inv2 big (draw1 e) s).
    + injection Hrun as <-. now apply togglePause_Inv2.
    + now injection Hrun as <-.
  - unfold onPress in Hrun.
    destruct b;
      try (destruct (negb (paused s) && negb (over s)) eqn:Hgate;
           [|now injection Hrun as <-]);
      try (apply andb_true_iff in Hgate as [_ Hov]; apply negb_true_iff in Hov);
      try (eapply move_Inv2; eassumption);
      try (eapply doHold_Inv2; eassumption).
    + eapply rotateCurrent_Inv2; eassumption.
    + now apply (hardDrop_Inv2 big (draw1 e) s).
    + destruct (negb (over s)); injection Hrun as <-;
        [now apply togglePause_Inv2|assumption].
  - now apply (update_Inv2 big (draw1 e) time s).
  - eapply reset_Inv2; eassumption.
Qed.

Lemma reachable_Inv2 s : reachable s -> Inv2 s.
Proof.
  induction 1 as [r0 e s Hboot|fuel e ev s s' Hr IH Hstep].
  - unfold boot in Hboot. eapply reset_Inv2; eassumption.
  - exact (handle_Inv2 fuel e ev s s' (reachable_Inv s Hr) IH Hstep).
Qed.

(** X20. In every reachable session each slot of the grid is [null]
    or the colour of one of the seven kinds: there are no holes and no
    empty strings, so a slot is occupied exactly if it is not [null],
    and a row is full exactly if none of its slots is [null]. *)
Theorem settled_cells s row :
  reachable s -> row ∈ grid s ->
  (forall c, c ∈ row ->
     (c = Null \/ exists t, c = Color (COLORS t))
     /\ (truthy c = true <-> c <> Null))
  /\ (fullRow row = true <-> Null ∉ row).
Proof.
  intros Hr Hrow. destruct (reachable_Inv2 s Hr) as [Hg _].
  unfold settledGrid in Hg. rewrite Forall_forall in Hg.
  specialize (Hg row Hrow). rewrite Forall_forall in Hg.
  assert (forall c, c ∈ row -> truthy c = true <-> c <> Null) as Htruthy.
  { intros c Hc. destruct (Hg c Hc) as [->|[t ->]].
    - split; [discriminate|congruence].
    - split; [discriminate|]. intros _. now destruct t. }
  split.
  - intros c Hc. split; [now apply Hg|now apply Htruthy].
  - unfold fullRow. rewrite forallb_forall. split.
    + intros Hall Hin. apply list_elem_of_In in Hin.
      specialize (Hall Null Hin). discriminate.
    + intros Hno c Hc. apply list_elem_of_In in Hc.
      destruct (Hg c Hc) as [->|[t ->]]; [contradiction|now destruct t].
Qed.

Lemma settled_cells_witness :
  fullRow (replicate 4 Null ++ [Color "#f1e05a"; Color "#f1e05a"] ++ replicate 4 Null)
  = true
  <-> Null ∉ replicate 4 Null ++ [Color "#f1e05a"; Color "#f1e05a"] ++ replicate 4 Null.
Proof.
  apply (settled_cells tower
           (replicate 4 Null ++ [Color "#f1e05a"; Color "#f1e05a"] ++ replicate 4 Null)
           tower_reachable).
  left.
Defined.

(** X21. In every reachable session the active piece is one of the
    four orientations of its kind, and [rot] says which: [rot] is one
    of 0 to 3, the shape is the kind's shape turned [rot] times by
    [(x, y) -> (2 - y, x)], and the colour is the kind's colour. The
    next piece is the kind's piece as built. *)
Theorem active_piece_canonical s :
  reachable s ->
  exists p, current s = Some p
    /\ 0 <= rot p < 4
    /\ shape p = Nat.iter (Z.to_nat (rot p)) turn (SHAPES (type p))
    /\ color p = COLORS (type p)
    /\ next s = pieceFromType (type (next s)).
Proof.
  intros Hr. destruct (reachable_Inv2 s Hr) as [_ (p & Hcur & Hrot & Hshape & Hcol)].
  destruct (inv_next s (reachable_Inv s Hr)) as [t Ht].
  exists p. split; [exact Hcur|]. split; [exact Hrot|]. split; [exact Hshape|].
  split; [exact Hcol|]. rewrite Ht. reflexivity.
Qed.

Lemma active_piece_canonical_witness :
  exists p, current upright = Some p /\ 0 <= rot p < 4
    /\ shape p = Nat.iter (Z.to_nat (rot p)) turn (SHAPES (type p)).
Proof.
  destruct (active_piece_canonical upright upright_reachable)
    as (p & Hcur & Hrot & Hshape & _).
  exists p. auto.
Defined.

(** ** Frames *)




(** ** Drawing *)

Lemma paintRow_spec row yy gx gy c :
  In (gx, gy, c) (paintRow row yy) <->
  exists xx, (xx < Z.to_nat COLS)%nat /\ row !! xx = Some (Color c)
             /\ truthy (Color c) = true /\ gx = Z.of_nat xx /\ gy = yy.
Proof.
  unfold paintRow. rewrite in_flat_map. split.
  - intros (xx & Hxx & Hin). apply in_seq in Hxx. exists xx.
    destruct (row !! xx) as [[| |c']|] eqn:Hc; try contradiction.
    destruct (truthy (Color c')) eqn:Ht; [|contradiction].
    destruct Hin as [[= <- <- <-]|[]]. repeat split; [lia|exact Ht].
  - intros (xx & Hxx & Hc & Ht & -> & ->). exists xx.
    split; [apply in_seq; lia|]. rewrite Hc, Ht. now left.
Qed.

Lemma paintRows_spec g : forall ys,
  (forall yy, In yy ys -> (yy < length g)%nat) ->
  exists ps, paintRows g ys = Ok ps
    /\ forall gx gy c, In (gx, gy, c) ps <->
         exists yy row, In yy ys /\ g !! yy = Some row
                        /\ In (gx, gy, c) (paintRow row (Z.of_nat yy)).
Proof.
  induction ys as [|yy ys IH]; intros Hys.
  - exists []. split; [reflexivity|]. intros gx gy c. split; [intros []|].
    intros (? & ? & [] & _).
  - destruct IH as (ps & Hps & Hspec); [intros; apply Hys; now right|].
    destruct (lookup_lt_is_Some_2 g yy (Hys yy (or_introl eq_refl))) as [row Hrow].
    exists (paintRow row (Z.of_nat yy) ++ ps). split.
    + cbn [paintRows]. rewrite Hrow, Hps. reflexivity.
    + intros gx gy c. rewrite in_app_iff, Hspec. split.
      * intros [Hin|(yy' & row' & Hin & Hr & Hp)].
        -- exists yy, row. split; [now left|]. split; assumption.
        -- exists yy', row'. split; [now right|]. split; assumption.
      * intros (yy' & row' & [<-|Hin] & Hr & Hp).
        -- left. rewrite Hrow in Hr. injection Hr as <-. exact Hp.
        -- right. exists yy', row'. split; [exact Hin|]. split; assumption.
Qed.

(** The cells of a piece that does not collide, as [paintCells] lists
    them, are on the board and on slots that hold no colour. *)
Lemma paintCells_free g q col gx gy col' :
  wfGrid g -> collides g q = Ok false -> In (gx, gy, col') (paintCells q col) ->
  0 <= gx < COLS /\ 0 <= gy < ROWS /\ filled g gy gx = false.
Proof.
  intros Hwf Hfree Hin.
  apply paintCells_spec in Hin as (c & Hc & -> & -> & Hy & ->).
  rewrite collides_false_iff in Hfree by assumption.
  specialize (Hfree c Hc). apply blocked_false in Hfree.
  destruct Hfree as [Hneg|H]; [lia|exact H].
Qed.

(** X23. Drawing a reachable session completes: the board scan of
    [draw] reads no missing row and the loop of the ghost ends. The
    scan paints exactly the slots that hold a colour, each in its
    colour; while the session is not over, the ghost and the active
    piece are painted on the board only, and on slots that hold no
    colour. *)
Theorem draw_paints_board fuel s :
  reachable s -> (41 <= fuel)%nat ->
  exists placed ghost active,
    draw fuel s = Ok (placed, ghost, active)
    /\ (forall gx gy c, In (gx, gy, c) placed <->
          0 <= gx < COLS /\ 0 <= gy < ROWS
          /\ filled (grid s) gy gx = true
          /\ cellAt (grid s) gy gx = Some (Color c))
    /\ (over s = false -> forall gx gy c, In (gx, gy, c) (ghost ++ active) ->
          0 <= gx < COLS /\ 0 <= gy < ROWS /\ filled (grid s) gy gx = false).
Proof.
  intros Hr Hfuel. destruct (reachable_Inv s Hr) as [Hwf _ Hcur _ _ _ _ _].
  destruct Hcur as (p & Hcur & (Hlen & Hbox & Hy) & Hfree).
  destruct (shape p) as [|c0 rest] eqn:Hs; [discriminate|].
  apply Forall_cons in Hbox as [Hc0 _].
  destruct (dropLoop_spec fuel (grid s) p false c0 rest Hwf Hs)
    as (k & Hk & Hpath & Hstop & Hloop).
  { unfold ROWS. lia. }
  destruct (paintRows_spec (grid s) (seq 0 (Z.to_nat ROWS))) as (ps & Hps & Hspec).
  { intros yy Hyy. apply in_seq in Hyy. destruct Hwf as [-> _]. lia. }
  exists ps, (paintCells (down k p) (color p)), (paintCells p (color p)).
  split; [|split].
  - unfold draw, drawGhostPiece. rewrite Hps, Hcur, clonePiece_id. cbn [isNull].
    rewrite (ghostLoop_dropLoop fuel (grid s) p false), Hloop. reflexivity.
  - intros gx gy c. rewrite Hspec. unfold filled, cellAt. split.
    + intros (yy & row & Hyy & Hrow & Hin). apply in_seq in Hyy.
      apply paintRow_spec in Hin as (xx & Hxx & Hc & Ht & -> & ->).
      rewrite !Nat2Z.id, Hrow, Hc, Ht. unfold COLS, ROWS in *.
      repeat split; lia.
    + intros (Hx & Hy' & Ht & Hc).
      destruct (grid s !! Z.to_nat gy) as [row|] eqn:Hrow; [|discriminate].
      exists (Z.to_nat gy), row. split; [apply in_seq; lia|].
      split; [exact Hrow|]. apply paintRow_spec. exists (Z.to_nat gx).
      rewrite Hc in Ht. rewrite !Z2Nat.id by lia.
      repeat split; [lia|exact Hc|exact Ht].
  - intros Hov gx gy c Hin. specialize (Hfree Hov).
    apply in_app_iff in Hin as [Hin|Hin].
    + apply (paintCells_free (grid s) (down k p) (color p) gx gy c Hwf); [|exact Hin].
      destruct (Z.eq_dec k 0) as [->|Hne]; [now rewrite down_0|apply Hpath; lia].
    + exact (paintCells_free (grid s) p (color p) gx gy c Hwf Hfree Hin).
Qed.

Lemma draw_paints_board_witness :
  exists placed ghost active,
    draw 41 tower = Ok (placed, ghost, active)
    /\ (In (4, 19, "#f1e05a") placed <->
          0 <= 4 < COLS /\ 0 <= 19 < ROWS
          /\ filled (grid tower) 19 4 = true
          /\ cellAt (grid tower) 19 4 = Some (Color "#f1e05a")).
Proof.
  destruct (draw_paints_board 41 tower tower_reachable (le_n 41))
    as (placed & ghost & active & Hdraw & Hplaced & _).
  exists placed, ghost, active. split; [exact Hdraw|]. apply Hplaced.
Defined.
